(** * AEGIS Peering Manager: the configuration generator of
    [ops/peering/generate.py], embedded and verified.

    The embedding follows the Python source function by function.  Python
    objects are dynamically typed, so the records read from YAML are
    [value] trees and every shape error the interpreter would raise
    ([AttributeError], [TypeError], ...) is an explicit [Raise].  The
    file system, the object heap, standard output and the clock are one
    explicit [state], threaded through a state-and-exception monad.

    What lies outside the repository (PyYAML, Jinja2, [str()], the wall
    clock, the [bird] binary, [tempfile], and what the operating system
    refuses) is gathered in the class [Env]; every theorem holds for
    every such environment.

    Paths are built as [pathlib] builds them: a name that is joined to a
    directory is split at its slashes, and an absolute name replaces the
    directory.  The file system maps a path, as the list of its parts, to
    what lies there; it does not follow a [..] back out of a directory
    and it has no links, so two different lists of parts are two
    different places.  Where a theorem depends on this, it asks that the
    names do not step back ([no_step_back]) and that the paths go
    straight down ([straight]). *)

From stdpp Require Import base option list strings gmap.
From Stdlib Require Import ZArith.

Set Warnings "-register-all".

(** ** Python values *)

(** What [yaml.safe_load] builds: scalars, sequences and mappings (floats,
    timestamps and sets are left out).  A mapping keeps its insertion
    order, as a Python [dict] does. *)
Inductive value : Type :=
| VNone
| VBool (b : bool)
| VInt (z : Z)
| VStr (s : string)
| VList (l : list value)
| VDict (d : list (value * value)).

Abbreviation dict := (list (value * value)).

(** Python's truth value testing, used by [x or {}] and by [if x:]. *)
Definition truthy (v : value) : bool :=
  match v with
  | VNone => false
  | VBool b => b
  | VInt z => negb (z =? 0)%Z
  | VStr s => negb (String.eqb s "")
  | VList l => match l with [] => false | _ => true end
  | VDict d => match d with [] => false | _ => true end
  end.

(** Keys are compared by hash and equality: [True] and [1] are the same
    key, [False] and [0] too; lists and dicts are unhashable. *)
Inductive hkey : Type :=
| HNone
| HInt (z : Z)
| HStr (s : string).

#[global] Instance hkey_eq_dec : EqDecision hkey.
Proof. solve_decision. Defined.

Definition hash_key (v : value) : option hkey :=
  match v with
  | VNone => Some HNone
  | VBool b => Some (HInt (if b then 1 else 0))
  | VInt z => Some (HInt z)
  | VStr s => Some (HStr s)
  | VList _ | VDict _ => None
  end.

(** [d.get(k)] on the entries of a dict, the key already hashed. *)
Fixpoint dict_get (h : hkey) (d : dict) : option value :=
  match d with
  | [] => None
  | (k, v) :: d' =>
      if decide (hash_key k = Some h) then Some v else dict_get h d'
  end.

(** [d[k] = v]: an existing key keeps its place (and its key object), a
    new key goes last. *)
Fixpoint dict_set (k : value) (h : hkey) (v : value) (d : dict) : dict :=
  match d with
  | [] => [(k, v)]
  | (k', v') :: d' =>
      if decide (hash_key k' = Some h) then (k', v) :: d'
      else (k', v') :: dict_set k h v d'
  end.

(** [d.update(o)] for a dict [o]: [d[k] = o[k]] for each key of [o], in
    the order of [o].  The keys of a dict are hashable; an entry whose key
    is not (none exists in Python) is passed over. *)
Fixpoint dict_update (d o : dict) : dict :=
  match o with
  | [] => d
  | (k, v) :: o' =>
      match hash_key k with
      | Some h => dict_update (dict_set k h v d) o'
      | None => dict_update d o'
      end
  end.

(** The keys of a dict are pairwise different (as hashed keys). *)
Definition dict_keys (d : dict) : list (option hkey) := (fun kv => hash_key kv.1) <$> d.

Definition dict_wf (d : dict) : Prop :=
  NoDup (dict_keys d) ∧ Forall (fun kv => is_Some (hash_key kv.1)) d.

(** [for x in v]: the items a value yields when iterated, or [None] when
    it is not iterable.  A string yields its characters, a dict its keys. *)
Fixpoint chars (s : string) : list value :=
  match s with
  | EmptyString => []
  | String c s' => VStr (String c EmptyString) :: chars s'
  end.

Definition py_iter (v : value) : option (list value) :=
  match v with
  | VList l => Some l
  | VStr s => Some (chars s)
  | VDict d => Some (fst <$> d)
  | VNone | VBool _ | VInt _ => None
  end.

(** ** Exceptions *)

Inductive exn_kind : Type :=
| FileNotFoundError
| IsADirectoryError
| NotADirectoryError
| FileExistsError
| PermissionError
| OSError
| UnicodeEncodeError
| YAMLError
| AttributeError
| TypeError
| ValueError
| TemplateNotFound
| TemplateError
| TimeoutExpired
| OtherError.

#[global] Instance exn_kind_eq_dec : EqDecision exn_kind.
Proof. solve_decision. Defined.

(** An exception object: its class and [str(e)]. *)
Record exn : Type := Exn { exn_class : exn_kind; exn_text : string }.

Inductive outcome (A : Type) : Type :=
| Ok (a : A)
| Raise (e : exn).
Arguments Ok {A} a.
Arguments Raise {A} e.

(** ** The world *)

(** A path is the list of its parts, as [pathlib] has them: the names
    from the working directory down, after the root when the path is
    absolute.  The empty list is the working directory. *)
Abbreviation path := (list string).

Inductive file : Type :=
| Dir
| File (text : string).

#[global] Instance file_eq_dec : EqDecision file.
Proof. solve_decision. Defined.

(** The result of parsing a document. *)
Inductive document : Type :=
| Malformed (why : string)
| Parsed (v : value).

(** The [CompletedProcess] of a subprocess run with [capture_output]. *)
Record completed_process : Type := Completed { returncode : Z; stderr : string }.

(** The calls the program makes to the operating system on a path:
    [os.stat] (behind [Path.exists]), [open] for reading and for writing,
    [os.mkdir] and [os.unlink]. *)
Inductive os_call : Type :=
| Stat
| OpenRead
| OpenWrite
| Mkdir
| Unlink.

(** Why the operating system refuses a call whatever lies at the path: a
    name that is too long ([ENAMETOOLONG]), a directory that may not be
    searched or a file that may not be opened ([EACCES]), a failing device
    ([EIO]).  That nothing lies at the path ([ENOENT]) is no refusal: the
    file system of the [state] decides it. *)
Inductive refusal : Type :=
| NameTooLong
| PermissionDenied
| IOFailure.

#[global] Instance refusal_eq_dec : EqDecision refusal.
Proof. solve_decision. Defined.

(** The exception class Python raises for a refusal. *)
Definition refusal_class (r : refusal) : exn_kind :=
  match r with
  | PermissionDenied => PermissionError
  | NameTooLong | IOFailure => OSError
  end.

(** The collaborators outside the repository. *)
Class Env : Type := {
  (** [yaml.safe_load] on the text of a file *)
  yaml_safe_load : string → document;
  (** [str(x)] for an object that is not a [str] *)
  py_str : value → string;
  (** the interpreter's message for a fault of this class on this object *)
  py_fault : exn_kind → value → string;
  (** the operating system's message for a failed call on this path *)
  os_fault : exn_kind → path → string;
  (** the calls the operating system refuses *)
  os_refuses : os_call → path → option refusal;
  (** writing a text to an open file: the exception that stops it, if one
      does (a character the encoding lacks, a full disk), and the part of
      the text that has reached the file by then *)
  write_fault : path → string → option (exn * string);
  (** [template.render] on the context for the text of a template *)
  jinja_render : string → value → outcome string;
  (** [datetime.now(timezone.utc).isoformat()] at the n-th reading *)
  utc_now : nat → string;
  (** the file [tempfile.NamedTemporaryFile(suffix='.conf')] creates: its
      name, or the exception when no file can be created *)
  mkstemp : gmap path file → outcome path;
  (** [subprocess.run(['bird', '-p', '-c', temp_path], timeout=30)] *)
  run_bird : path → string → outcome completed_process;
  (** [Path(__file__).parent] *)
  script_dir : path;
  (** what [parser.print_help()] prints *)
  help_text : string;
}.

(** A reference to a heap object. *)
Abbreviation ref := nat.

Record state : Type := State {
  fs : gmap path file;
  heap : list value;
  stdout : list string;
  ticks : nat;
}.

Definition set_fs (f : gmap path file → gmap path file) (st : state) : state :=
  State (f (fs st)) (heap st) (stdout st) (ticks st).
Definition set_heap (f : list value → list value) (st : state) : state :=
  State (fs st) (f (heap st)) (stdout st) (ticks st).
Definition set_stdout (f : list string → list string) (st : state) : state :=
  State (fs st) (heap st) (f (stdout st)) (ticks st).
Definition set_ticks (f : nat → nat) (st : state) : state :=
  State (fs st) (heap st) (stdout st) (f (ticks st)).

(** ** The monad: state, and exceptions that keep the state *)

Definition M (A : Type) : Type := state → outcome A * state.

Definition ret {A} (a : A) : M A := fun st => (Ok a, st).

Definition bind {A B} (c : M A) (k : A → M B) : M B :=
  fun st =>
    match c st with
    | (Ok a, st') => k a st'
    | (Raise e, st') => (Raise e, st')
    end.

Definition raise {A} (e : exn) : M A := fun st => (Raise e, st).

Notation "'let*' x := c 'in' k" := (bind c (fun x => k))
  (at level 10, x pattern, c at level 100, k at level 200).
Notation "c ;;; k" := (bind c (fun _ => k))
  (at level 100, k at level 200, right associativity).

(** [try: body  except K: handler]: [handles e] says whether the clause
    matches. *)
Definition try_except {A} (body : M A) (handles : exn → bool) (handler : exn → M A) : M A :=
  fun st =>
    match body st with
    | (Ok a, st') => (Ok a, st')
    | (Raise e, st') => if handles e then handler e st' else (Raise e, st')
    end.

(** [try: body  finally: cleanup] *)
Definition try_finally {A} (body : M A) (cleanup : M unit) : M A :=
  fun st =>
    match body st with
    | (r, st') =>
        match cleanup st' with
        | (Ok _, st'') => (r, st'')
        | (Raise e, st'') => (Raise e, st'')
        end
    end.

Definition is_class (k : exn_kind) (e : exn) : bool := bool_decide (exn_class e = k).

Definition get_state : M state := fun st => (Ok st, st).

Definition print (line : string) : M unit :=
  fun st => (Ok tt, set_stdout (fun out => out ++ [line]) st).

(** A new object on the heap. *)
Definition alloc (v : value) : M ref :=
  fun st => (Ok (length (heap st)), set_heap (fun h => h ++ [v]) st).

(** The object a reference points to. *)
Definition deref (r : ref) : M value :=
  fun st => (Ok (default VNone (heap st !! r)), st).

Definition assign (r : ref) (v : value) : M unit :=
  fun st => (Ok tt, set_heap (fun h => <[r := v]> h) st).

(** ** Python operations on values *)

Section operations.
Context `{Env}.

(** [f"{x}"] *)
Definition fmt (v : value) : string :=
  match v with
  | VStr s => s
  | _ => py_str v
  end.

Definition fault {A} (k : exn_kind) (v : value) : M A :=
  raise (Exn k (py_fault k v)).

(** [obj.get(key, dflt)]: the attribute is looked up first, then the key
    is hashed. *)
Definition py_get (obj key dflt : value) : M value :=
  match obj with
  | VDict d =>
      match hash_key key with
      | Some h => ret (default dflt (dict_get h d))
      | None => fault TypeError key
      end
  | _ => fault AttributeError obj
  end.

(** [d.update(items)] for an argument that is no dict: each item must be
    a sequence of two elements, a key and a value.  The items before a
    bad one are already stored when the exception is raised. *)
Fixpoint update_items (d : dict) (items : list value) : dict * option exn :=
  match items with
  | [] => (d, None)
  | item :: rest =>
      match py_iter item with
      | None => (d, Some (Exn TypeError (py_fault TypeError item)))
      | Some [k; v] =>
          match hash_key k with
          | Some h => update_items (dict_set k h v d) rest
          | None => (d, Some (Exn TypeError (py_fault TypeError k)))
          end
      | Some _ => (d, Some (Exn ValueError (py_fault ValueError item)))
      end
  end.

(** The rest of [peer.update(arg)] once [arg] has yielded its items. *)
Definition store_items (peer : ref) (d : dict) (items : list value) : M unit :=
  let '(d', err) := update_items d items in
  assign peer (VDict d') ;;;
  match err with
  | None => ret tt
  | Some e => raise e
  end.

(** [peer.update(arg)], in place on the object [peer] refers to. *)
Definition py_update (peer : ref) (arg : value) : M unit :=
  let* obj := deref peer in
  match obj with
  | VDict d =>
      match arg with
      | VDict o => assign peer (VDict (dict_update d o))
      | _ =>
          match py_iter arg with
          | None => fault TypeError arg
          | Some items => store_items peer d items
          end
      end
  | _ => fault AttributeError obj
  end.

(** The template filters that [__init__] registers. *)

(** [as_list]: [s if isinstance(s, list) else [s]] *)
Definition as_list (v : value) : value :=
  match v with
  | VList _ => v
  | _ => VList [v]
  end.

Definition double_quote : string := String (Ascii.ascii_of_nat 34) EmptyString.

(** [quote]: the f-string that puts [s] between double quotes *)
Definition quote (v : value) : string := double_quote +:+ fmt v +:+ double_quote.

(** ** Paths and files *)

Definition slash : Ascii.ascii := Ascii.ascii_of_nat 47.

(** The root of an absolute path, and the parts that stay where they are:
    the roots and [..]. *)
Definition is_root (c : string) : bool := String.eqb c "/" || String.eqb c "//".

Definition is_anchor (c : string) : bool := is_root c || String.eqb c "..".

(** [str(path)] *)
Definition path_str (p : path) : string :=
  match p with
  | [] => "."
  | c :: rest => if is_root c then c +:+ String.concat "/" rest else String.concat "/" p
  end.

(** The pieces of a string between its slashes. *)
Fixpoint components (s : string) : list string :=
  match s with
  | EmptyString => [EmptyString]
  | String c s' =>
      if Ascii.eqb c slash then EmptyString :: components s'
      else match components s' with
           | x :: xs => String c x :: xs
           | [] => [String c EmptyString]
           end
  end.

(** The parts of a string parsed as a path: the empty pieces and the
    pieces [.] are dropped, a piece [..] is kept. *)
Definition split_parts (s : string) : list string :=
  List.filter (fun c => negb (String.eqb c "") && negb (String.eqb c ".")) (components s).

(** The root of a string parsed as a path: one slash, or exactly two. *)
Definition root_of (s : string) : option string :=
  match s with
  | String a s1 =>
      if Ascii.eqb a slash then
        match s1 with
        | String b s2 =>
            if Ascii.eqb b slash then
              match s2 with
              | String c _ => if Ascii.eqb c slash then Some "/" else Some "//"
              | EmptyString => Some "//"
              end
            else Some "/"
        | EmptyString => Some "/"
        end
      else None
  | EmptyString => None
  end.

(** [base / s]: the parts of [s] after those of [base], or the parts of
    [s] alone when [s] is absolute. *)
Definition joinpath (base : path) (s : string) : path :=
  match root_of s with
  | Some r => r :: split_parts s
  | None => base ++ split_parts s
  end.

(** What lies at a path: the working directory, the root and what is
    reached from them by [..] are directories; the file system holds the
    rest. *)
Definition entry (f : gmap path file) (p : path) : option file :=
  if forallb is_anchor p then Some Dir else f !! p.

(** The call [c] on [p], as far as the operating system may refuse it. *)
Definition refused (p : path) (r : refusal) : exn :=
  Exn (refusal_class r) (os_fault (refusal_class r) p).

Definition os_permits (c : os_call) (p : path) : M unit :=
  match os_refuses c p with
  | Some r => raise (refused p r)
  | None => ret tt
  end.

(** [path.exists()]: an error of [os.stat] other than that nothing is
    there is raised. *)
Definition path_exists (p : path) : M bool :=
  os_permits Stat p ;;;
  let* st := get_state in
  ret (bool_decide (is_Some (entry (fs st) p))).

(** [path.parent] *)
Definition parent (p : path) : path :=
  match p with
  | [c] => if is_root c then p else []
  | _ => removelast p
  end.

(** [with open(p, 'r') as f], read to the end *)
Definition read_file (p : path) : M string :=
  os_permits OpenRead p ;;;
  let* st := get_state in
  match entry (fs st) p with
  | Some (File text) => ret text
  | Some Dir => raise (Exn IsADirectoryError (os_fault IsADirectoryError p))
  | None => raise (Exn FileNotFoundError (os_fault FileNotFoundError p))
  end.

(** [d.mkdir(parents=True, exist_ok=True)]: [made] exists already (or is
    the working directory), [todo] are the components still to descend.
    A file in the way is reported for the directory asked for, [made ++
    todo]. *)
Fixpoint mkdir_from (made todo : path) : M unit :=
  match todo with
  | [] => ret tt
  | c :: todo' =>
      let d := made ++ [c] in
      let* st := get_state in
      match entry (fs st) d with
      | Some Dir => mkdir_from d todo'
      | Some (File _) =>
          let k := match todo' with [] => FileExistsError | _ => NotADirectoryError end in
          raise (Exn k (os_fault k (d ++ todo')))
      | None =>
          os_permits Mkdir d ;;;
          (fun st => (Ok tt, set_fs (fun f => <[d := Dir]> f) st)) ;;;
          mkdir_from d todo'
      end
  end.

Definition mkdir_parents (d : path) : M unit := mkdir_from [] d.

(** The directory a new file would lie in is there. *)
Definition check_parent (p : path) : M unit :=
  let* st := get_state in
  match entry (fs st) (parent p) with
  | Some Dir => ret tt
  | Some (File _) => raise (Exn NotADirectoryError (os_fault NotADirectoryError p))
  | None => raise (Exn FileNotFoundError (os_fault FileNotFoundError p))
  end.

(** [with open(p, 'w') as f: f.write(text)]: opening creates the file or
    empties it; when the write then fails, the file keeps what has reached
    it. *)
Definition write_file (p : path) (text : string) : M unit :=
  check_parent p ;;;
  os_permits OpenWrite p ;;;
  let* st := get_state in
  match entry (fs st) p with
  | Some Dir => raise (Exn IsADirectoryError (os_fault IsADirectoryError p))
  | _ =>
      match write_fault p text with
      | Some (e, part) =>
          (fun st => (Ok tt, set_fs (fun f => <[p := File part]> f) st)) ;;;
          raise e
      | None => fun st => (Ok tt, set_fs (fun f => <[p := File text]> f) st)
      end
  end.

(** [os.unlink(p)] *)
Definition unlink (p : path) : M unit :=
  os_permits Unlink p ;;;
  let* st := get_state in
  match entry (fs st) p with
  | Some (File _) => fun st => (Ok tt, set_fs (fun f => delete p f) st)
  | Some Dir => raise (Exn IsADirectoryError (os_fault IsADirectoryError p))
  | None => raise (Exn FileNotFoundError (os_fault FileNotFoundError p))
  end.

(** A name a directory can hold: not empty, without a slash, and neither
    [.] nor [..]. *)
Fixpoint no_slash (s : string) : bool :=
  match s with
  | EmptyString => true
  | String c s' => negb (Ascii.eqb c slash) && no_slash s'
  end.

Definition valid_name (s : string) : bool :=
  no_slash s && negb (String.eqb s "") && negb (String.eqb s ".")
  && negb (String.eqb s "..").

(** A path that goes straight down: every part is such a name, but for a
    root at its head. *)
Definition straight (p : path) : bool :=
  match p with
  | [] => true
  | c :: rest => (is_root c || valid_name c) && forallb valid_name rest
  end.

(** The name of [p] when it lies directly in the directory [d]. *)
Fixpoint child_name (d p : path) : option string :=
  match d, p with
  | [], [name] => if valid_name name then Some name else None
  | x :: d', y :: p' => if decide (x = y) then child_name d' p' else None
  | _, _ => None
  end.

(** [s] without its ending [suf], when it ends so. *)
Fixpoint strip_suffix (suf s : string) : option string :=
  if String.eqb s suf then Some EmptyString
  else match s with
       | EmptyString => None
       | String c s' => String c <$> strip_suffix suf s'
       end.

(** [f.stem] of a name that matches the pattern of [list_nodes]: a leading dot starts no
    suffix. *)
Definition yaml_stem (name : string) : option string :=
  match strip_suffix ".yaml" name with
  | Some EmptyString => Some name
  | o => o
  end.

(** [[f.stem for f in d.glob("*.yaml")]] *)
Definition glob_yaml_stems (d : path) (st : state) : list string :=
  omap (fun pf => child_name d pf.1 ≫= yaml_stem) (map_to_list (fs st)).

End operations.

(** ** class PeeringManager *)

Record PeeringManager : Type := Manager {
  base_dir : path;
  templates_dir : path;
  data_dir : path;
  output_dir : path;
}.

(** The rendering context: the dict that [build_context] returns.  Its
    records are references to the objects the loads created. *)
Record render_context : Type := RenderContext {
  ctx_global : ref;
  ctx_node : ref;
  ctx_peers : list ref;
  ctx_generated_by : string;
  ctx_generated_at : string;
}.

(** The result map of [generate_all]: node name to configuration, in
    insertion order. *)
Abbreviation configs := (list (string * string)).

Fixpoint configs_set (k v : string) (c : configs) : configs :=
  match c with
  | [] => [(k, v)]
  | (k', v') :: c' =>
      if decide (k' = k) then (k', v) :: c' else (k', v') :: configs_set k v c'
  end.


Definition nl : string := String (Ascii.ascii_of_nat 10) EmptyString.

Fixpoint repeat_string (s : string) (n : nat) : string :=
  match n with
  | O => EmptyString
  | S n' => s +:+ repeat_string s n'
  end.

(** The parsed command line, the [Namespace] of [argparse].  The
    [Path(...)] conversions are taken as done; an option whose string is
    empty, which Python tests as false, is [None]. *)
Record arguments : Type := Namespace {
  arg_node : option string;
  arg_all : bool;
  arg_output : option path;
  arg_output_dir : path;
  arg_validate : bool;
  arg_list : bool;
  arg_base_dir : option path;
  arg_dry_run : bool;
}.

Section manager.
Context `{Env}.

Definition required_dirs (m : PeeringManager) : list path :=
  [templates_dir m; data_dir m; data_dir m ++ ["peers"]; data_dir m ++ ["nodes"]].

Fixpoint require_dirs (ds : list path) : M unit :=
  match ds with
  | [] => ret tt
  | d :: ds' =>
      let* found := path_exists d in
      if found then require_dirs ds'
      else raise (Exn FileNotFoundError ("Required directory not found: " +:+ path_str d))
  end.

Definition _validate_directories (m : PeeringManager) : M unit :=
  require_dirs (required_dirs m).

(** [PeeringManager.__init__] *)
Definition __init__ (base : option path) : M PeeringManager :=
  let b := default script_dir base in
  let m := Manager b (b ++ ["templates"]) (b ++ ["data"]) (b ++ ["output"]) in
  _validate_directories m ;;;
  ret m.

(** [yaml.safe_load(f) or {}] *)
Definition or_empty (v : value) : value := if truthy v then v else VDict [].

Definition load_yaml (p : path) : M ref :=
  let* found := path_exists p in
  if found then
    let* text := read_file p in
    match yaml_safe_load text with
    | Malformed why => raise (Exn YAMLError why)
    | Parsed v => alloc (or_empty v)
    end
  else raise (Exn FileNotFoundError ("YAML file not found: " +:+ path_str p)).

Definition global_path (m : PeeringManager) : path := data_dir m ++ ["global.yaml"].

Definition load_global_config (m : PeeringManager) : M ref :=
  let* found := path_exists (global_path m) in
  if found then load_yaml (global_path m)
  else raise (Exn FileNotFoundError
                ("Global configuration not found: " +:+ path_str (global_path m) +:+ nl +:+
                 "Create data/global.yaml with AS number, anycast prefixes, etc.")).

(** [self.data_dir / "peers" / f"{peer_name}.yaml"] *)
Definition peer_path (m : PeeringManager) (peer_name : value) : path :=
  joinpath (data_dir m ++ ["peers"]) (fmt peer_name +:+ ".yaml").

Definition load_peer (m : PeeringManager) (peer_name : value) : M ref :=
  load_yaml (peer_path m peer_name).

(** [self.data_dir / "nodes" / f"{node_name}.yaml"] *)
Definition node_path (m : PeeringManager) (node_name : string) : path :=
  joinpath (data_dir m ++ ["nodes"]) (node_name +:+ ".yaml").

Definition load_node (m : PeeringManager) (node_name : string) : M ref :=
  load_yaml (node_path m node_name).

Definition list_nodes (m : PeeringManager) : M (list string) :=
  let* st := get_state in
  ret (glob_yaml_stems (data_dir m ++ ["nodes"]) st).

Definition list_peers (m : PeeringManager) : M (list string) :=
  let* st := get_state in
  ret (glob_yaml_stems (data_dir m ++ ["peers"]) st).

(** One turn of the loop of [build_context]: the body of
    [for peer_name in peer_names], with [peers] the list built so far. *)
Definition resolve_peer (m : PeeringManager) (node_config : ref)
    (peers : list ref) (peer_name : value) : M (list ref) :=
  try_except
    (let* peer := load_peer m peer_name in
     let* node := deref node_config in
     let* all_overrides := py_get node (VStr "overrides") (VDict []) in
     let* overrides := py_get all_overrides peer_name (VDict []) in
     py_update peer overrides ;;;
     let* fields := deref peer in
     let* enabled := py_get fields (VStr "enabled") (VBool true) in
     if truthy enabled then ret (peers ++ [peer]) else ret peers)
    (is_class FileNotFoundError)
    (fun _ =>
       print ("Warning: Peer configuration not found: " +:+ fmt peer_name) ;;;
       ret peers).

Fixpoint resolve_peers (m : PeeringManager) (node_config : ref)
    (peers : list ref) (peer_names : list value) : M (list ref) :=
  match peer_names with
  | [] => ret peers
  | peer_name :: rest =>
      let* peers' := resolve_peer m node_config peers peer_name in
      resolve_peers m node_config peers' rest
  end.

(** [datetime.now(timezone.utc).isoformat()] *)
Definition now_isoformat : M string :=
  fun st => (Ok (utc_now (ticks st)), set_ticks S st).

Definition build_context (m : PeeringManager) (node_name : string) : M render_context :=
  let* global_config := load_global_config m in
  let* node_config := load_node m node_name in
  let* node := deref node_config in
  let* peer_names := py_get node (VStr "peers") (VList []) in
  let* peers :=
    match py_iter peer_names with
    | Some names => resolve_peers m node_config [] names
    | None => fault TypeError peer_names
    end in
  let* generated_at := now_isoformat in
  ret (RenderContext global_config node_config peers "AEGIS Peering Manager" generated_at).

(** The objects behind a list of references. *)
Definition objects (h : list value) (rs : list ref) : list value :=
  (fun r => default VNone (h !! r)) <$> rs.

(** The context as the template sees it. *)
Definition context_value (h : list value) (c : render_context) : value :=
  VDict [ (VStr "global", default VNone (h !! ctx_global c));
          (VStr "node", default VNone (h !! ctx_node c));
          (VStr "peers", VList (objects h (ctx_peers c)));
          (VStr "generated_by", VStr (ctx_generated_by c));
          (VStr "generated_at", VStr (ctx_generated_at c)) ].

(** [self.env.get_template(name)]: the loader reads the template from
    [templates_dir], when a file is there. *)
Definition get_template (m : PeeringManager) (name : string) : M string :=
  let* st := get_state in
  match entry (fs st) (templates_dir m ++ [name]) with
  | Some (File _) => read_file (templates_dir m ++ [name])
  | _ => raise (Exn TemplateNotFound name)
  end.

Definition render_config (m : PeeringManager) (node_name : string) : M string :=
  let* context := build_context m node_name in
  let* template := get_template m "bird.conf.j2" in
  let* st := get_state in
  match jinja_render template (context_value (heap st) context) with
  | Ok text => ret text
  | Raise e => raise e
  end.

Definition generate (m : PeeringManager) (node_name : string)
    (output_path : option path) : M string :=
  let* config := render_config m node_name in
  match output_path with
  | Some p =>
      mkdir_parents (parent p) ;;;
      write_file p config ;;;
      print ("Generated: " +:+ path_str p)
  | None => ret tt
  end ;;;
  ret config.


(** [output_dir / node_name / "bird.conf"] *)
Definition node_output (dir : path) (node_name : string) : path :=
  joinpath dir node_name ++ ["bird.conf"].

(** One turn of the loop of [generate_all]. *)
Definition generate_node (m : PeeringManager) (dir : path)
    (cs : configs) (node_name : string) : M configs :=
  try_except
    (let output_path := node_output dir node_name in
     let* config := generate m node_name (Some output_path) in
     ret (configs_set node_name config cs))
    (fun _ => true)
    (fun e =>
       print ("Error generating config for " +:+ node_name +:+ ": " +:+ exn_text e) ;;;
       ret cs).

Fixpoint generate_nodes (m : PeeringManager) (dir : path)
    (cs : configs) (node_names : list string) : M configs :=
  match node_names with
  | [] => ret cs
  | node_name :: rest =>
      let* cs' := generate_node m dir cs node_name in
      generate_nodes m dir cs' rest
  end.

Definition generate_all (m : PeeringManager) (out_dir : option path) : M configs :=
  let dir := default (output_dir m) out_dir in
  let* node_names := list_nodes m in
  generate_nodes m dir [] node_names.


(** [with tempfile.NamedTemporaryFile(mode='w', suffix='.conf',
    delete=False) as f: f.write(config)]: a new file under the name the
    system picks, then the write; the value is [f.name].  A file that was
    created stays when the write fails. *)
Definition named_temporary_file (config : string) : M path :=
  fun st =>
    match mkstemp (fs st) with
    | Raise e => (Raise e, st)
    | Ok temp_path =>
        match write_fault temp_path config with
        | Some (e, part) =>
            (Raise e, set_fs (fun f => <[temp_path := File part]> f) st)
        | None => (Ok temp_path, set_fs (fun f => <[temp_path := File config]> f) st)
        end
    end.

(** [subprocess.run(['bird', '-p', '-c', temp_path], capture_output=True,
    text=True, timeout=30)] *)
Definition subprocess_run_bird (temp_path : path) (config : string) : M completed_process :=
  match run_bird temp_path config with
  | Ok result => ret result
  | Raise e => raise e
  end.

Definition validate_config (config : string) : M bool :=
  let* temp_path := named_temporary_file config in
  try_finally
    (try_except
       (let* result := subprocess_run_bird temp_path config in
        if (returncode result =? 0)%Z then
          print "Configuration is valid" ;;;
          ret true
        else
          print ("Configuration validation failed:" +:+ nl +:+ stderr result) ;;;
          ret false)
       (fun e => is_class FileNotFoundError e || is_class TimeoutExpired e)
       (fun e =>
          if is_class FileNotFoundError e then
            print "Warning: BIRD not installed, skipping validation" ;;;
            print "Install BIRD to enable config validation: apt install bird2" ;;;
            ret true
          else
            print "Warning: BIRD validation timed out" ;;;
            ret false))
    (unlink temp_path).

(** ** main *)

Fixpoint print_lines (lines : list string) : M unit :=
  match lines with
  | [] => ret tt
  | l :: rest => print l ;;; print_lines rest
  end.

(** [for node_name, config in configs.items(): print(...)] of the dry run *)
Fixpoint print_configs (cs : configs) : M unit :=
  match cs with
  | [] => ret tt
  | (node_name, config) :: rest =>
      print (nl +:+ repeat_string "=" 60) ;;;
      print ("# Configuration for: " +:+ node_name) ;;;
      print (repeat_string "=" 60) ;;;
      print config ;;;
      print_configs rest
  end.

Fixpoint validate_configs (cs : configs) : M unit :=
  match cs with
  | [] => ret tt
  | (node_name, config) :: rest =>
      print (nl +:+ "Validating " +:+ node_name +:+ ":") ;;;
      validate_config config ;;;
      validate_configs rest
  end.

Definition nonempty (o : option string) : option string :=
  match o with
  | Some s => if String.eqb s "" then None else Some s
  | None => None
  end.

(** The exit status of [main]: 0 when it returns, 1 on [sys.exit(1)].
    Both [except] clauses print the error and exit with 1 (the traceback
    of the second goes to standard error), so they are one handler here;
    [SystemExit] is no [Exception] and passes them. *)
Definition main (args : arguments) : M Z :=
  try_except
    (let* manager := __init__ (arg_base_dir args) in
     if arg_list args then
       print "Available nodes:" ;;;
       let* nodes := list_nodes manager in
       print_lines ((fun n => "  - " +:+ n) <$> nodes) ;;;
       print (nl +:+ "Available peers:") ;;;
       let* peers := list_peers manager in
       print_lines ((fun p => "  - " +:+ p) <$> peers) ;;;
       ret 0%Z
     else if arg_all args then
       let out_dir := arg_output_dir args in
       let* cs := generate_all manager (if negb (arg_dry_run args) then Some out_dir else None) in
       (if arg_dry_run args then print_configs cs else ret tt) ;;;
       (if arg_validate args then
          print (nl +:+ "Validating configurations...") ;;;
          validate_configs cs
        else ret tt) ;;;
       ret 0%Z
     else
       match nonempty (arg_node args) with
       | Some node =>
           let output_path :=
             match arg_output args with
             | Some p => if negb (arg_dry_run args) then Some p else None
             | None => None
             end in
           let* config := generate manager node output_path in
           (if arg_dry_run args || negb (bool_decide (is_Some (arg_output args)))
            then print config else ret tt) ;;;
           (if arg_validate args then validate_config config ;;; ret tt else ret tt) ;;;
           ret 0%Z
       | None =>
           print help_text ;;;
           ret 1%Z
       end)
    (fun _ => true)
    (fun e =>
       print ("Error: " +:+ exn_text e) ;;;
       ret 1%Z).

End manager.


(** ** The resolution of §4.2 of the specification, in its words

    These definitions follow the specification, not the code: the
    theorems below compare [build_context] with them. *)

Section specification.
Context `{Env}.

(** The operating system lets the program look at [p], and read it. *)
Definition examinable (p : path) : bool := bool_decide (os_refuses Stat p = None).

Definition readable (p : path) : bool :=
  examinable p && bool_decide (os_refuses OpenRead p = None).

(** A document is absent when the file system can be asked and holds
    nothing at the path, present when it holds something. *)
Definition absent (f : gmap path file) (p : path) : bool :=
  examinable p && bool_decide (entry f p = None).

Definition present (f : gmap path file) (p : path) : bool :=
  examinable p && bool_decide (is_Some (entry f p)).

(** A name that, joined to a directory, stays below it or names its own
    place: none of its parts is [..]. *)
Definition no_step_back (s : string) : bool :=
  negb (existsb (String.eqb "..") (split_parts s)).

(** The record a document holds: an empty document is the empty record. *)
Definition read_record (f : gmap path file) (p : path) : option value :=
  if readable p then
    match entry f p with
    | Some (File text) =>
        match yaml_safe_load text with
        | Parsed v => Some (or_empty v)
        | Malformed _ => None
        end
    | _ => None
    end
  else None.

Fixpoint names_of (l : list value) : option (list string) :=
  match l with
  | [] => Some []
  | VStr s :: l' => cons s <$> names_of l'
  | _ => None
  end.

(** [peers]: the ordered list of peer names of a node record, empty when
    the key is missing. *)
Definition spec_peer_list (node : dict) : option (list string) :=
  match dict_get (HStr "peers") node with
  | None => Some []
  | Some (VList l) => names_of l
  | Some _ => None
  end.

(** [overrides]: the mapping from peer name to partial record, empty when
    the key is missing. *)
Definition spec_override_map (node : dict) : option dict :=
  match dict_get (HStr "overrides") node with
  | None => Some []
  | Some (VDict om) => Some om
  | Some _ => None
  end.

(** The override partial record for a peer name, empty if none is
    declared. *)
Definition spec_override (om : dict) (p : string) : option dict :=
  match dict_get (HStr p) om with
  | None => Some []
  | Some (VDict V) => Some V
  | Some _ => None
  end.

(** The stored PeerRecord of a name. *)
Definition spec_peer_record (f : gmap path file) (m : PeeringManager) (p : string) : option dict :=
  match read_record f (peer_path m (VStr p)) with
  | Some (VDict B) => Some B
  | _ => None
  end.

Definition peer_exists (f : gmap path file) (m : PeeringManager) (p : string) : bool :=
  present f (peer_path m (VStr p)).

Definition peer_absent (f : gmap path file) (m : PeeringManager) (p : string) : bool :=
  absent f (peer_path m (VStr p)).

(** The effective [enabled] of a resolved peer: the field if present,
    else true. *)
Definition spec_enabled (R : dict) : value :=
  default (VBool true) (dict_get (HStr "enabled") R).

(** The ResolvedPeer of a name: the PeerRecord with the override applied
    on top. *)
Definition spec_resolved (f : gmap path file) (m : PeeringManager) (om : dict) (p : string) : dict :=
  dict_update (default [] (spec_peer_record f m p)) (default [] (spec_override om p)).

(** A peer survives when its record exists and it resolves to enabled. *)
Definition spec_survives (f : gmap path file) (m : PeeringManager) (om : dict) (p : string) : bool :=
  peer_exists f m p && truthy (spec_enabled (spec_resolved f m om p)).

(** The node's entries for its peers have the shape §6 describes: the
    peer name does not step back, and the override entry for it, when
    there is one, is a mapping. *)
Definition override_conforms (om : dict) (p : string) : bool :=
  no_step_back (p +:+ ".yaml") && bool_decide (is_Some (spec_override om p)).

(** The documents of a referenced peer have the shape §6 describes: the
    node's entry conforms, and the peer document is absent, or it can be
    read and holds a mapping. *)
Definition peer_conforms (f : gmap path file) (m : PeeringManager) (om : dict) (p : string) : bool :=
  override_conforms om p
  && (peer_absent f m p || bool_decide (is_Some (spec_peer_record f m p))).

(** The diagnostic of a missing peer. *)
Definition peer_warning (p : string) : string :=
  "Warning: Peer configuration not found: " +:+ p.


(** What a load gives: the object behind the reference it returns. *)
Definition loaded (r : outcome ref * state) : outcome value :=
  match r.1 with
  | Ok x => Ok (default VNone (heap r.2 !! x))
  | Raise e => Raise e
  end.

(** The peer names without a record, and those that survive, in the
    order of the list. *)
Definition missing_peers (f : gmap path file) (m : PeeringManager) (P : list string) : list string :=
  List.filter (peer_absent f m) P.

Definition surviving_peers (f : gmap path file) (m : PeeringManager) (om : dict)
    (P : list string) : list string :=
  List.filter (spec_survives f m om) P.


End specification.

(** ** Invariants of computations

    [obeys I R c]: from a state in [I], the computation [c] ends in a
    state in [I] with an outcome in [R]. *)

Definition obeys {A} (I : state → Prop) (R : outcome A → Prop) (c : M A) : Prop :=
  ∀ st, I st → I (c st).2 ∧ R (c st).1.

(** The file system is [f0], the objects of [h0] are as they were and
    the lines of [out0] are still the first ones printed. *)
Definition inv (f0 : gmap path file) (h0 : list value) (out0 : list string) (st : state) : Prop :=
  fs st = f0 ∧ h0 `prefix_of` heap st ∧ out0 `prefix_of` stdout st.

Abbreviation any := (fun _ : outcome _ => True).

Abbreviation no_fnf :=
  (fun r : outcome _ => ∀ e, r = Raise e → exn_class e ≠ FileNotFoundError).

Abbreviation succeeds := (fun r : outcome _ => ∃ a, r = Ok a).

Abbreviation fresh_ref h0 := (fun r : outcome ref => ∀ a, r = Ok a → length h0 ≤ a).

(** From [f] to [f'] nothing was removed or altered: at most directories
    were created. *)
Definition dirs_added (f f' : gmap path file) : Prop :=
  ∀ q, f' !! q = f !! q ∨ (f !! q = None ∧ f' !! q = Some Dir).

(** The same, but for what lies at [p]. *)
Definition dirs_added_beside (p : path) (f f' : gmap path file) : Prop :=
  ∀ q, q ≠ p → f' !! q = f !! q ∨ (f !! q = None ∧ f' !! q = Some Dir).

(** What a failed [generate] may leave behind: new directories, and the
    output file with a part of the text. *)
Definition failed_write (p : path) (f f' : gmap path file) : Prop :=
  dirs_added f f'
  ∨ ∃ mid part, dirs_added f mid ∧ f' = <[p := File part]> mid.



Ltac side :=
  intros; cbv beta in *;
  first [done | match goal with Hex : ∃ _, _ |- _ => by destruct Hex end].

(** ** A small deployment to run the model on

    The scenario of §8 of the specification: two peers, one of them
    switched off by the node's override, and a peer name without a
    record. *)

Module Demo.

Definition p1_fields : dict :=
  [(VStr "address", VStr "10.0.0.1"); (VStr "enabled", VBool true)].
Definition p2_fields : dict :=
  [(VStr "address", VStr "10.0.0.2"); (VStr "enabled", VBool true)].
Definition edge1_overrides : dict :=
  [(VStr "p2", VDict [(VStr "enabled", VBool false)])].
Definition edge1_fields : dict :=
  [(VStr "peers", VList [VStr "p1"; VStr "p2"; VStr "ghost"]);
   (VStr "overrides", VDict edge1_overrides)].

(** A name of 256 characters, more than a file name may have. *)
Definition long_name : string := repeat_string "a" 256.

(** The parser on the documents of the deployment, named by their text. *)
Definition parse (text : string) : document :=
  if String.eqb text "asn: 65000" then Parsed (VDict [(VStr "asn", VInt 65000)])
  else if String.eqb text "p1" then Parsed (VDict p1_fields)
  else if String.eqb text "p2" then Parsed (VDict p2_fields)
  else if String.eqb text "edge1" then Parsed (VDict edge1_fields)
  else if String.eqb text "edge7" then Parsed (VDict [(VStr "peers", VList [VStr long_name])])
  else if String.eqb text "edge8" then Parsed (VDict [(VStr "peers", VList [VStr "sub/q1"])])
  else if String.eqb text "" then Parsed VNone
  else Malformed "could not parse".

(** A checker that accepts every text but [bad], and is missing for
    [nobird]. *)
Definition bird (temp_path : path) (config : string) : outcome completed_process :=
  if String.eqb config "bad" then Ok (Completed 1 "syntax error")
  else if String.eqb config "nobird" then Raise (Exn FileNotFoundError "bird")
  else if String.eqb config "slow" then Raise (Exn TimeoutExpired "timed out after 30 seconds")
  else Ok (Completed 0 "").

(** A file system that takes names of up to 255 characters. *)
Definition refuses (c : os_call) (p : path) : option refusal :=
  if forallb (fun name => String.length name <=? 255) p then None else Some NameTooLong.

Fixpoint ascii_only (s : string) : bool :=
  match s with
  | EmptyString => true
  | String c s' => (Ascii.nat_of_ascii c <? 128) && ascii_only s'
  end.

(** Files are written in an encoding that has the ASCII characters only:
    a text with another character stops the write before anything has
    reached the file. *)
Definition ascii_write (p : path) (text : string) : option (exn * string) :=
  if ascii_only text then None
  else Some (Exn UnicodeEncodeError "'ascii' codec can't encode character", "").

Definition env_of (parser : string → document)
    (writes : path → string → option (exn * string)) : Env := {|
  yaml_safe_load := parser;
  py_str := fun _ => "?";
  py_fault := fun _ _ => "fault";
  os_fault := fun _ _ => "os fault";
  os_refuses := refuses;
  write_fault := writes;
  jinja_render := fun template _ => Ok template;
  utc_now := fun _ => "2024-01-01T00:00:00+00:00";
  mkstemp := fun _ => Ok ["/"; "tmp"; "tmpq3x7.conf"];
  run_bird := bird;
  script_dir := ["opt"; "peering"];
  help_text := "usage: generate.py";
|}.

Definition env : Env := env_of parse ascii_write.

(** The same on a file system that takes every text. *)
Definition env_plain : Env := env_of parse (fun _ _ => None).

Definition manager : PeeringManager :=
  Manager ["opt"; "peering"] ["opt"; "peering"; "templates"]
          ["opt"; "peering"; "data"] ["opt"; "peering"; "output"].

Definition files : gmap path file :=
  list_to_map
    [ (["opt"], Dir);
      (["opt"; "peering"], Dir);
      (["opt"; "peering"; "templates"], Dir);
      (["opt"; "peering"; "data"], Dir);
      (["opt"; "peering"; "data"; "peers"], Dir);
      (["opt"; "peering"; "data"; "nodes"], Dir);
      (["opt"; "peering"; "templates"; "bird.conf.j2"], File "router id 10.0.0.1;");
      (["opt"; "peering"; "data"; "global.yaml"], File "asn: 65000");
      (["opt"; "peering"; "data"; "nodes"; "edge1.yaml"], File "edge1");
      (["opt"; "peering"; "data"; "nodes"; "edge2.yaml"], File "");
      (["opt"; "peering"; "data"; "nodes"; "edge3.yaml"], File "peers: [");
      (["opt"; "peering"; "data"; "peers"; "p1.yaml"], File "p1");
      (["opt"; "peering"; "data"; "peers"; "p2.yaml"], File "p2") ].

Definition start : state := State files [] [] 0.

(** A machine without the deployment. *)
Definition bare : state := State ∅ [] [] 0.


Definition dry_run_all : arguments :=
  Namespace None true None ["out"] false false None true.







(** A configuration with a character outside ASCII. *)
Definition accented : string := "# café".

(** Documents of another shape than the schema's: a node document that is
    a list, one whose [peers] is null, one whose [overrides] is null. *)
Definition parse_shapes (text : string) : document :=
  if String.eqb text "- edge4" then Parsed (VList [VStr "edge4"])
  else if String.eqb text "peers:" then Parsed (VDict [(VStr "peers", VNone)])
  else if String.eqb text "{peers: [ghost, p1], overrides: null}" then
    Parsed (VDict [(VStr "peers", VList [VStr "ghost"; VStr "p1"]);
                   (VStr "overrides", VNone)])
  else parse text.

Definition env_shapes : Env := env_of parse_shapes ascii_write.

Definition shapes : state :=
  State (<[["opt"; "peering"; "data"; "nodes"; "edge4.yaml"] := File "- edge4"]>
        (<[["opt"; "peering"; "data"; "nodes"; "edge5.yaml"] := File "peers:"]>
        (<[["opt"; "peering"; "data"; "nodes"; "edge6.yaml"] :=
             File "{peers: [ghost, p1], overrides: null}"]> files)))
        [] [] 0.

End Demo.


(** * Theorems *)

(** ** Dicts *)

Lemma dict_get_set k h v d h' :
  hash_key k = Some h →
  dict_get h' (dict_set k h v d) = if decide (h' = h) then Some v else dict_get h' d.
Proof.
  intros Hk. induction d as [|[k' v'] d IH]; simpl.
  - destruct (decide (h' = h)) as [->|Hne].
    + by rewrite decide_True.
    + rewrite decide_False; [done|]. congruence.
  - destruct (decide (hash_key k' = Some h)) as [E|E]; simpl.
    + destruct (decide (h' = h)) as [->|Hne].
      * by rewrite decide_True.
      * rewrite !decide_False; [done|congruence..].
    + destruct (decide (hash_key k' = Some h')) as [E'|E']; [|done].
      rewrite decide_False; [done|]. congruence.
Qed.

Lemma dict_set_same k h v d :
  dict_get h d = Some v → dict_set k h v d = d.
Proof.
  induction d as [|[k' v'] d IH]; simpl; [done|].
  destruct (decide (hash_key k' = Some h)); intros Hg.
  - by simplify_eq.
  - by rewrite IH.
Qed.

Lemma dict_get_key h d v :
  dict_get h d = Some v → Some h ∈ dict_keys d.
Proof.
  induction d as [|[k' v'] d IH]; simpl; [done|].
  destruct (decide (hash_key k' = Some h)) as [E|E]; intros Hg.
  - rewrite E. apply list_elem_of_here.
  - apply list_elem_of_further. by apply IH.
Qed.

(** Lookup in an updated dict: the override wins, the base shows
    through. *)
Lemma dict_get_update h d o :
  NoDup (dict_keys o) →
  dict_get h (dict_update d o) =
    match dict_get h o with
    | Some v => Some v
    | None => dict_get h d
    end.
Proof.
  revert d. induction o as [|[k v] o IH]; intros d Hnd; simpl; [done|].
  apply NoDup_cons in Hnd as [Hk Hnd].
  destruct (hash_key k) as [hk|] eqn:Ek.
  - rewrite IH by done. rewrite (dict_get_set _ _ _ _ _ Ek).
    destruct (decide (Some hk = Some h)) as [E|E].
    + simplify_eq. rewrite decide_True by done.
      destruct (dict_get h o) as [w|] eqn:Eo; [|done].
      exfalso. apply Hk. simpl. rewrite Ek. by eapply dict_get_key.
    + rewrite decide_False by congruence. done.
  - rewrite decide_False by congruence. by apply IH.
Qed.

Lemma dict_update_absorbed d o :
  (∀ k v h, (k, v) ∈ o → hash_key k = Some h → dict_get h d = Some v) →
  dict_update d o = d.
Proof.
  induction o as [|[k v] o IH]; intros Ho; simpl; [done|].
  destruct (hash_key k) as [h|] eqn:Ek.
  - rewrite (dict_set_same k h v d).
    + apply IH. intros k' v' h' Hin. apply Ho. by right.
    + apply (Ho k v h); [left|done].
  - apply IH. intros k' v' h' Hin. apply Ho. by right.
Qed.

Lemma dict_get_first k v h o :
  NoDup (dict_keys o) → (k, v) ∈ o → hash_key k = Some h → dict_get h o = Some v.
Proof.
  induction o as [|[k' v'] o IH]; intros Hnd Hin Hk; [by apply elem_of_nil in Hin|].
  apply NoDup_cons in Hnd as [Hnk Hnd]. simpl.
  apply elem_of_cons in Hin as [Heq|Hin].
  - simplify_eq. by rewrite decide_True.
  - destruct (decide (hash_key k' = Some h)) as [E|E]; [|by apply IH].
    exfalso. apply Hnk. simpl. rewrite E, <- Hk.
    apply (list_elem_of_fmap_2 (fun kv : value * value => hash_key kv.1) o (k, v) Hin).
Qed.

Lemma dict_update_idempotent d o :
  NoDup (dict_keys o) → dict_update (dict_update d o) o = dict_update d o.
Proof.
  intros Hnd. apply dict_update_absorbed. intros k v h Hin Hk.
  rewrite dict_get_update by done. by rewrite (dict_get_first k v h o).
Qed.

(** ** The heap *)

Lemma lookup_snoc (h : list value) v : (h ++ [v]) !! length h = Some v.
Proof. by apply list_lookup_middle. Qed.

Lemma insert_snoc (h : list value) v x : <[length h := x]> (h ++ [v]) = h ++ [x].
Proof. induction h as [|y h IH]; simpl; [done|]. by rewrite IH. Qed.

(** ** Paths *)

Lemma entry_snoc (f : gmap path file) d x :
  is_anchor x = false → entry f (d ++ [x]) = f !! (d ++ [x]).
Proof.
  intros Hx. unfold entry. rewrite forallb_app. simpl. rewrite Hx.
  by rewrite andb_false_r.
Qed.

Lemma entry_not_anchors (f : gmap path file) p x :
  x ∈ p → is_anchor x = false → entry f p = f !! p.
Proof.
  intros Hin Hx. unfold entry.
  destruct (forallb is_anchor p) eqn:Hall; [|done].
  rewrite forallb_forall in Hall. apply list_elem_of_In in Hin.
  rewrite (Hall x Hin) in Hx. discriminate Hx.
Qed.

Lemma entry_insert_ne (f : gmap path file) p q x :
  p ≠ q → entry (<[p := x]> f) q = entry f q.
Proof. intros Hne. unfold entry. by rewrite lookup_insert_ne. Qed.

Lemma string_app_length (s t : string) :
  String.length (s +:+ t) = String.length s + String.length t.
Proof. induction s as [|c s IH]; simpl; [done|]. by rewrite IH. Qed.

Lemma components_nonempty s : components s ≠ [].
Proof.
  destruct s as [|c s]; simpl; [done|].
  destruct (Ascii.eqb c slash); [done|]. by destruct (components s).
Qed.

(** A string that ends in a suffix without a slash has a piece that ends
    in it. *)
Lemma components_suffix s t :
  no_slash t = true → ∃ z, z +:+ t ∈ components (s +:+ t).
Proof.
  intros Ht. induction s as [|c s IH].
  - exists EmptyString. change (EmptyString +:+ t) with t.
    assert (components t = [t]) as ->; [|apply list_elem_of_here].
    clear -Ht. induction t as [|c t IH]; simpl; [done|].
    simpl in Ht. apply andb_true_iff in Ht as [Hc Ht].
    apply negb_true_iff in Hc. rewrite Hc. by rewrite (IH Ht).
  - destruct IH as [z Hz].
    change (String c s +:+ t) with (String c (s +:+ t)). simpl.
    destruct (Ascii.eqb c slash).
    + exists z. by apply list_elem_of_further.
    + destruct (components (s +:+ t)) as [|x xs] eqn:Ec.
      { by apply elem_of_nil in Hz. }
      apply elem_of_cons in Hz as [<-|Hz].
      * exists (String c z). apply list_elem_of_here.
      * exists z. by apply list_elem_of_further.
Qed.

(** A document path always names something below its directory: one of
    its parts ends in [.yaml]. *)
Lemma joinpath_yaml base s :
  ∃ x, x ∈ joinpath base (s +:+ ".yaml") ∧ is_anchor x = false.
Proof.
  destruct (components_suffix s ".yaml" eq_refl) as [z Hz].
  exists (z +:+ ".yaml").
  assert (5 ≤ String.length (z +:+ ".yaml")) as Hlen
    by (rewrite string_app_length; simpl; lia).
  assert (∀ y, String.length y < 5 → String.eqb (z +:+ ".yaml") y = false) as Hne.
  { intros y Hy. apply String.eqb_neq. intros Heq. rewrite Heq in Hlen. lia. }
  split.
  - assert (z +:+ ".yaml" ∈ split_parts (s +:+ ".yaml")) as Hin.
    { unfold split_parts. apply list_elem_of_In, filter_In. split.
      - by apply list_elem_of_In.
      - rewrite !Hne by (simpl; lia). done. }
    unfold joinpath. destruct (root_of _).
    + by apply list_elem_of_further.
    + apply elem_of_app. by right.
  - unfold is_anchor, is_root. rewrite !Hne by (simpl; lia). done.
Qed.

Lemma entry_joinpath_yaml (f : gmap path file) base s :
  entry f (joinpath base (s +:+ ".yaml")) = f !! joinpath base (s +:+ ".yaml").
Proof.
  destruct (joinpath_yaml base s) as (x & Hin & Hx). by eapply entry_not_anchors.
Qed.





Section loads.
Context `{Env}.

Lemma refused_class p r : exn_class (refused p r) ≠ FileNotFoundError.
Proof. by destruct r. Qed.

Lemma path_exists_run p st :
  path_exists p st =
    match os_refuses Stat p with
    | Some r => (Raise (refused p r), st)
    | None => (Ok (bool_decide (is_Some (entry (fs st) p))), st)
    end.
Proof.
  unfold path_exists, bind, os_permits, get_state, ret, raise.
  by destruct (os_refuses Stat p).
Qed.


Lemma path_exists_missing p st :
  os_refuses Stat p = None → entry (fs st) p = None →
  path_exists p st = (Ok false, st).
Proof.
  intros Hs Hp. rewrite path_exists_run, Hs, Hp. by rewrite bool_decide_eq_false_2.
Qed.

Lemma read_file_run p st :
  read_file p st =
    match os_refuses OpenRead p with
    | Some r => (Raise (refused p r), st)
    | None =>
        match entry (fs st) p with
        | Some (File text) => (Ok text, st)
        | Some Dir => (Raise (Exn IsADirectoryError (os_fault IsADirectoryError p)), st)
        | None => (Raise (Exn FileNotFoundError (os_fault FileNotFoundError p)), st)
        end
    end.
Proof.
  unfold read_file, bind, os_permits, get_state, ret, raise.
  destruct (os_refuses OpenRead p); [done|].
  by destruct (entry (fs st) p) as [[|text]|].
Qed.

(** What [load_yaml] does, case by case: the path cannot be examined,
    nothing is there, the file cannot be opened, a directory is there, the
    text does not parse, or the document is loaded as a new object. *)
Lemma load_yaml_run p st :
  load_yaml p st =
    match os_refuses Stat p with
    | Some r => (Raise (refused p r), st)
    | None =>
        match entry (fs st) p with
        | None =>
            (Raise (Exn FileNotFoundError ("YAML file not found: " +:+ path_str p)), st)
        | Some x =>
            match os_refuses OpenRead p with
            | Some r => (Raise (refused p r), st)
            | None =>
                match x with
                | Dir => (Raise (Exn IsADirectoryError (os_fault IsADirectoryError p)), st)
                | File text =>
                    match yaml_safe_load text with
                    | Malformed why => (Raise (Exn YAMLError why), st)
                    | Parsed v =>
                        (Ok (length (heap st)), set_heap (fun h => h ++ [or_empty v]) st)
                    end
                end
            end
        end
    end.
Proof.
  unfold load_yaml, bind at 1. rewrite path_exists_run.
  destruct (os_refuses Stat p); [done|].
  destruct (entry (fs st) p) as [x|] eqn:Hx; simpl; [|done].
  unfold bind. rewrite read_file_run, Hx.
  destruct (os_refuses OpenRead p); [done|].
  destruct x as [|text]; [done|]. by destruct (yaml_safe_load text).
Qed.

Lemma absent_spec f p :
  absent f p = true ↔ os_refuses Stat p = None ∧ entry f p = None.
Proof.
  unfold absent, examinable. rewrite andb_true_iff, !bool_decide_eq_true. done.
Qed.

Lemma present_spec f p :
  present f p = true ↔ os_refuses Stat p = None ∧ is_Some (entry f p).
Proof.
  unfold present, examinable. rewrite andb_true_iff, !bool_decide_eq_true. done.
Qed.

Lemma load_yaml_absent p st :
  absent (fs st) p = true →
  load_yaml p st =
    (Raise (Exn FileNotFoundError ("YAML file not found: " +:+ path_str p)), st).
Proof. intros [Hs Hp]%absent_spec. by rewrite load_yaml_run, Hs, Hp. Qed.

Lemma read_record_spec f p v :
  read_record f p = Some v ↔
    os_refuses Stat p = None ∧ os_refuses OpenRead p = None
    ∧ ∃ text w, entry f p = Some (File text) ∧ yaml_safe_load text = Parsed w
                ∧ v = or_empty w.
Proof.
  unfold read_record, readable, examinable. split.
  - destruct (bool_decide (os_refuses Stat p = None)) eqn:Hs; [|done].
    destruct (bool_decide (os_refuses OpenRead p = None)) eqn:Ho; [|done]. simpl.
    apply bool_decide_eq_true in Hs, Ho.
    destruct (entry f p) as [[|text]|]; try done.
    destruct (yaml_safe_load text) as [|w] eqn:Hw; [done|].
    intros [= <-]. split_and!; [done..|]. by exists text, w.
  - intros (Hs & Ho & text & w & He & Hw & ->).
    rewrite !bool_decide_eq_true_2 by done. simpl. by rewrite He, Hw.
Qed.

Lemma load_yaml_record p st v :
  read_record (fs st) p = Some v →
  load_yaml p st = (Ok (length (heap st)), set_heap (fun h => h ++ [v]) st).
Proof.
  intros (Hs & Ho & text & w & He & Hw & ->)%read_record_spec.
  by rewrite load_yaml_run, Hs, He, Ho, Hw.
Qed.

(** [load_yaml] raises [FileNotFoundError] for an absent document only,
    and then changes nothing. *)
Lemma load_yaml_not_found p st e st' :
  load_yaml p st = (Raise e, st') →
  exn_class e = FileNotFoundError →
  absent (fs st) p = true.
Proof.
  rewrite load_yaml_run. intros Hrun Hc. apply absent_spec.
  destruct (os_refuses Stat p) as [r|].
  { injection Hrun as <- _. by destruct (refused_class p r). }
  split; [done|].
  destruct (entry (fs st) p) as [x|]; [|done].
  destruct (os_refuses OpenRead p) as [r|].
  { injection Hrun as <- _. by destruct (refused_class p r). }
  destruct x as [|text]; [by injection Hrun as <- _|].
  destruct (yaml_safe_load text); [by injection Hrun as <- _|done].
Qed.

Lemma load_yaml_raises p st e st' : load_yaml p st = (Raise e, st') → st' = st.
Proof.
  rewrite load_yaml_run.
  destruct (os_refuses Stat p); [by intros [= _ <-]|].
  destruct (entry (fs st) p) as [x|]; [|by intros [= _ <-]].
  destruct (os_refuses OpenRead p); [by intros [= _ <-]|].
  destruct x as [|text]; [by intros [= _ <-]|].
  destruct (yaml_safe_load text); [by intros [= _ <-]|done].
Qed.

Lemma load_yaml_fresh p st r st1 :
  load_yaml p st = (Ok r, st1) →
  r = length (heap st) ∧ ∃ v, read_record (fs st) p = Some v
                              ∧ st1 = set_heap (fun h => h ++ [v]) st.
Proof.
  rewrite load_yaml_run.
  destruct (os_refuses Stat p) eqn:Hs; [done|].
  destruct (entry (fs st) p) as [x|] eqn:He; [|done].
  destruct (os_refuses OpenRead p) eqn:Ho; [done|].
  destruct x as [|text]; [done|].
  destruct (yaml_safe_load text) as [|w] eqn:Hw; [done|].
  intros [= <- <-]. split; [done|]. exists (or_empty w). split; [|done].
  apply read_record_spec. split_and!; [done..|]. by exists text, w.
Qed.

Lemma read_record_present f p v : read_record f p = Some v → present f p = true.
Proof.
  intros (Hs & _ & text & w & He & _)%read_record_spec.
  apply present_spec. by rewrite He.
Qed.

Lemma absent_not_present f p : absent f p = true → present f p = false.
Proof.
  intros [Hs Hp]%absent_spec. unfold present. rewrite Hp.
  rewrite (bool_decide_eq_false_2 (is_Some None)) by (by intros [? ?]).
  apply andb_false_r.
Qed.

Lemma load_global_config_run m st :
  load_global_config m st =
    match os_refuses Stat (global_path m) with
    | Some r => (Raise (refused (global_path m) r), st)
    | None =>
        match entry (fs st) (global_path m) with
        | None =>
            (Raise (Exn FileNotFoundError
                      ("Global configuration not found: " +:+ path_str (global_path m)
                       +:+ nl +:+
                       "Create data/global.yaml with AS number, anycast prefixes, etc.")),
             st)
        | Some _ => load_yaml (global_path m) st
        end
    end.
Proof.
  unfold load_global_config, bind. rewrite path_exists_run.
  destruct (os_refuses Stat (global_path m)); [done|].
  by destruct (entry (fs st) (global_path m)).
Qed.

Lemma load_global_config_record m st g :
  read_record (fs st) (global_path m) = Some g →
  load_global_config m st = (Ok (length (heap st)), set_heap (fun h => h ++ [g]) st).
Proof.
  intros Hg. rewrite load_global_config_run.
  pose proof Hg as (Hs & _ & text & w & He & _)%read_record_spec.
  rewrite Hs, He. by apply load_yaml_record.
Qed.

End loads.

Section resolution.
Context `{Env}.

(** ** One turn of the peer loop *)

Lemma peer_path_entry f m name : entry f (peer_path m name) = f !! peer_path m name.
Proof. apply entry_joinpath_yaml. Qed.

Lemma node_path_entry f m name : entry f (node_path m name) = f !! node_path m name.
Proof. apply entry_joinpath_yaml. Qed.

Lemma global_path_entry f m : entry f (global_path m) = f !! global_path m.
Proof. by apply entry_snoc. Qed.

Lemma resolve_peer_absent m nc acc p st :
  peer_absent (fs st) m p = true →
  resolve_peer m nc acc (VStr p) st =
    (Ok acc, set_stdout (fun out => out ++ [peer_warning p]) st).
Proof.
  intros Hp. unfold resolve_peer, try_except, bind at 1, load_peer.
  by rewrite (load_yaml_absent _ _ Hp).
Qed.

Lemma resolve_peer_present m nc acc p st N om B V :
  heap st !! nc = Some (VDict N) →
  spec_override_map N = Some om →
  spec_peer_record (fs st) m p = Some B →
  spec_override om p = Some V →
  resolve_peer m nc acc (VStr p) st =
    (Ok (if truthy (spec_enabled (dict_update B V))
         then acc ++ [length (heap st)] else acc),
     set_heap (fun h => h ++ [VDict (dict_update B V)]) st).
Proof.
  intros Hnc Hom HB HV.
  unfold spec_peer_record in HB.
  destruct (read_record (fs st) (peer_path m (VStr p))) as [b|] eqn:Hr; [|done].
  destruct b; try done. simplify_eq.
  unfold resolve_peer, try_except, bind at 1, load_peer.
  rewrite (load_yaml_record _ _ _ Hr).
  unfold bind at 1, deref at 1. simpl.
  rewrite (lookup_app_l_Some _ _ _ _ Hnc). simpl.
  assert (default (VDict []) (dict_get (HStr "overrides") N) = VDict om) as ->.
  { unfold spec_override_map in Hom.
    destruct (dict_get (HStr "overrides") N) as [[]|]; by simplify_eq. }
  assert (default (VDict []) (dict_get (HStr p) om) = VDict V) as HV'.
  { unfold spec_override in HV.
    destruct (dict_get (HStr p) om) as [[]|]; by simplify_eq. }
  unfold bind, ret, py_get, py_update, deref, assign, bind, ret. simpl.
  rewrite HV'. rewrite lookup_snoc. simpl. rewrite insert_snoc, lookup_snoc. simpl.
  unfold spec_enabled.
  destruct (truthy _); unfold set_heap; simpl; by rewrite insert_snoc.
Qed.


(** ** The whole peer loop, on documents of the expected shape *)

Lemma peer_conforms_spec f m om p :
  peer_conforms f m om p = true ↔
    no_step_back (p +:+ ".yaml") = true
    ∧ is_Some (spec_override om p)
    ∧ (peer_absent f m p = true ∨ is_Some (spec_peer_record f m p)).
Proof.
  unfold peer_conforms, override_conforms.
  rewrite !andb_true_iff, orb_true_iff, !bool_decide_eq_true. tauto.
Qed.

Lemma spec_peer_record_exists f m p B :
  spec_peer_record f m p = Some B → peer_exists f m p = true ∧ peer_absent f m p = false.
Proof.
  unfold spec_peer_record, peer_exists, peer_absent. intros HB.
  destruct (read_record f (peer_path m (VStr p))) as [v|] eqn:Hr; [|done].
  pose proof (read_record_present _ _ _ Hr) as Hp. split; [done|].
  destruct (absent f (peer_path m (VStr p))) eqn:Ha; [|done].
  apply absent_not_present in Ha. congruence.
Qed.

Lemma resolve_peers_run m nc N om P : ∀ acc st,
  heap st !! nc = Some (VDict N) →
  spec_override_map N = Some om →
  Forall (fun p => peer_conforms (fs st) m om p = true) P →
  ∃ refs hnew,
    resolve_peers m nc acc (VStr <$> P) st =
      (Ok (acc ++ refs),
       State (fs st) (heap st ++ hnew)
             (stdout st ++ (peer_warning <$> missing_peers (fs st) m P)) (ticks st))
    ∧ Forall2 (fun r v => (heap st ++ hnew) !! r = Some v) refs
        (VDict <$> (spec_resolved (fs st) m om <$> surviving_peers (fs st) m om P)).
Proof.
  induction P as [|p P IH]; intros acc st Hnc Hom Hall.
  - exists [], []. simpl. rewrite !app_nil_r. split; [by destruct st|constructor].
  - apply Forall_cons in Hall as [Hp Hall]. simpl.
    unfold bind at 1.
    unfold missing_peers, surviving_peers, spec_survives. simpl.
    apply peer_conforms_spec in Hp as (_ & [V HV] & [Habs|[B HB]]).
    + rewrite Habs. unfold peer_exists.
      rewrite (absent_not_present _ _ Habs). simpl.
      rewrite (resolve_peer_absent _ _ _ _ _ Habs).
      destruct (IH acc (set_stdout (fun out => out ++ [peer_warning p]) st) Hnc Hom Hall)
        as (refs & hnew & Hrun & Hobj).
      exists refs, hnew. split; [|done].
      etrans; [exact Hrun|]. simpl. by rewrite <- !app_assoc.
    + destruct (spec_peer_record_exists _ _ _ _ HB) as [Hex Hna].
      rewrite Hex, Hna. simpl.
      rewrite (resolve_peer_present _ _ _ _ _ _ _ _ _ Hnc Hom HB HV).
      set (st1 := set_heap _ st).
      assert (heap st1 !! nc = Some (VDict N)) as Hnc1
        by (by apply lookup_app_l_Some).
      assert (spec_resolved (fs st) m om p = dict_update B V) as HR
        by (unfold spec_resolved; by rewrite HB, HV).
      rewrite HR.
      destruct (truthy (spec_enabled (dict_update B V))) eqn:Hen.
      * destruct (IH (acc ++ [length (heap st)]) st1 Hnc1 Hom Hall) as (refs & hnew & Hrun & Hobj).
        exists (length (heap st) :: refs), (VDict (dict_update B V) :: hnew). split.
        { etrans; [exact Hrun|]. unfold st1. simpl. by rewrite <- !app_assoc. }
        unfold st1 in Hobj. simpl in Hobj. rewrite <- app_assoc in Hobj.
        constructor; [|done]. rewrite HR. by apply list_lookup_middle.
      * destruct (IH acc st1 Hnc1 Hom Hall) as (refs & hnew & Hrun & Hobj).
        exists refs, (VDict (dict_update B V) :: hnew). split.
        { etrans; [exact Hrun|]. unfold st1. simpl. by rewrite <- !app_assoc. }
        unfold st1 in Hobj. simpl in Hobj. by rewrite <- app_assoc in Hobj.
Qed.


Lemma names_of_fmap l P : names_of l = Some P → l = VStr <$> P.
Proof.
  revert P. induction l as [|v l IH]; intros P; simpl.
  - by intros [= <-].
  - destruct v; try done. destruct (names_of l) as [P'|]; [|done].
    intros [= <-]. simpl. by rewrite (IH P').
Qed.

Lemma spec_peer_list_get N P :
  spec_peer_list N = Some P →
  default (VList []) (dict_get (HStr "peers") N) = VList (VStr <$> P).
Proof.
  unfold spec_peer_list. intros HP.
  destruct (dict_get (HStr "peers") N) as [[]|]; simplify_eq; try done.
  simpl. f_equal. by apply names_of_fmap.
Qed.

(** ** [build_context] once both records are loaded *)

Lemma build_context_loaded m node_name st g v :
  read_record (fs st) (global_path m) = Some g →
  read_record (fs st) (node_path m node_name) = Some v →
  build_context m node_name st =
    (let* peer_names := py_get v (VStr "peers") (VList []) in
     let* peers :=
       match py_iter peer_names with
       | Some names => resolve_peers m (S (length (heap st))) [] names
       | None => fault TypeError peer_names
       end in
     let* generated_at := now_isoformat in
     ret (RenderContext (length (heap st)) (S (length (heap st))) peers
            "AEGIS Peering Manager" generated_at))
      (State (fs st) (heap st ++ [g; v]) (stdout st) (ticks st)).
Proof.
  intros Hg Hn.
  unfold build_context, bind at 1.
  rewrite (load_global_config_record _ _ _ Hg).
  unfold bind at 1, load_node. rewrite (load_yaml_record _ _ v) by done.
  unfold bind at 1, deref. simpl.
  rewrite (list_lookup_middle (heap st ++ [g]) [] v) by done. simpl.
  rewrite length_app. simpl.
  replace (length (heap st) + 1) with (S (length (heap st))) by lia.
  unfold set_heap. simpl. by rewrite <- app_assoc.
Qed.

(** ** [build_context] on documents of the expected shape *)

Lemma build_context_run m node_name st g N P om :
  read_record (fs st) (global_path m) = Some g →
  read_record (fs st) (node_path m node_name) = Some (VDict N) →
  spec_peer_list N = Some P →
  spec_override_map N = Some om →
  Forall (fun p => peer_conforms (fs st) m om p = true) P →
  ∃ refs hnew,
    build_context m node_name st =
      (Ok (RenderContext (length (heap st)) (S (length (heap st))) refs
             "AEGIS Peering Manager" (utc_now (ticks st))),
       State (fs st) (heap st ++ g :: VDict N :: hnew)
             (stdout st ++ (peer_warning <$> missing_peers (fs st) m P))
             (S (ticks st)))
    ∧ Forall2 (fun r v => (heap st ++ g :: VDict N :: hnew) !! r = Some v) refs
        (VDict <$> (spec_resolved (fs st) m om <$> surviving_peers (fs st) m om P)).
Proof.
  intros Hg Hn HP Hom Hall.
  rewrite (build_context_loaded m node_name st g (VDict N) Hg Hn).
  set (st2 := State _ _ _ _).
  assert (heap st2 !! S (length (heap st)) = Some (VDict N)) as Hnc.
  { unfold st2. simpl. rewrite (cons_middle g), app_assoc.
    apply list_lookup_middle. rewrite length_app. simpl. lia. }
  unfold bind at 1. simpl. rewrite (spec_peer_list_get _ _ HP).
  unfold bind at 1. simpl.
  destruct (resolve_peers_run m (S (length (heap st))) N om P [] st2 Hnc Hom Hall)
    as (refs & hnew & Hrun & Hobj).
  rewrite Hrun.
  exists refs, hnew. unfold st2 in *. simpl in *.
  rewrite <- !app_assoc in *. simpl in *. by split.
Qed.


End resolution.

(** ** What computations keep *)
Section obeys.
Context {A B : Type} (I : state → Prop).

Lemma obeys_ret (R : outcome A → Prop) a : R (Ok a) → obeys I R (ret a).
Proof. by intros HR st HI. Qed.

Lemma obeys_raise (R : outcome A → Prop) e : R (Raise e) → obeys I R (raise e).
Proof. by intros HR st HI. Qed.

Lemma obeys_bind (Rc : outcome A → Prop) (R : outcome B → Prop) c k :
  obeys I Rc c →
  (∀ e, Rc (Raise e) → R (Raise e)) →
  (∀ a, Rc (Ok a) → obeys I R (k a)) →
  obeys I R (bind c k).
Proof.
  intros Hc He Hk st HI. unfold bind.
  destruct (Hc st HI) as [HI' Hr]. destruct (c st) as [[a|e] st']; simpl in *.
  - by apply Hk.
  - split; [done|]. by apply He.
Qed.

Lemma obeys_try_except (Rb R : outcome A → Prop) body handles handler :
  obeys I Rb body →
  (∀ a, Rb (Ok a) → R (Ok a)) →
  (∀ e, Rb (Raise e) → handles e = false → R (Raise e)) →
  (∀ e, Rb (Raise e) → handles e = true → obeys I R (handler e)) →
  obeys I R (try_except body handles handler).
Proof.
  intros Hb Hok Hmiss Hhit st HI. unfold try_except.
  destruct (Hb st HI) as [HI' Hr]. destruct (body st) as [[a|e] st']; simpl in *.
  - split; [done|]. by apply Hok.
  - destruct (handles e) eqn:Eh.
    + by apply Hhit.
    + split; [done|]. by apply Hmiss.
Qed.


Lemma obeys_get_state (R : outcome state → Prop) :
  (∀ st, I st → R (Ok st)) → obeys I R get_state.
Proof. intros HR st HI. split; [done|]. by apply HR. Qed.

End obeys.

Lemma prefix_insert_ge (h0 h : list value) r v :
  h0 `prefix_of` h → length h0 ≤ r → h0 `prefix_of` <[r := v]> h.
Proof.
  intros [k ->] Hr. rewrite insert_app_r_alt by done. by apply prefix_app_r.
Qed.


Section frames.
Context `{Env}.
Context (f0 : gmap path file) (h0 : list value) (out0 : list string).

Lemma obeys_print {R : outcome unit → Prop} line :
  R (Ok tt) → obeys (inv f0 h0 out0) R (print line).
Proof.
  intros HR st (Hf & Hh & Ho). split; [|done]. split_and!; simpl; [done..|].
  by apply prefix_app_r.
Qed.

Lemma obeys_fault {A} (R : outcome A → Prop) k v :
  R (Raise (Exn k (py_fault k v))) → obeys (inv f0 h0 out0) R (fault k v).
Proof. apply obeys_raise. Qed.

Lemma obeys_deref r : obeys (inv f0 h0 out0) succeeds (deref r).
Proof. intros st HI. split; [done|]. by eexists. Qed.

Lemma obeys_py_get (R : outcome value → Prop) obj key dflt :
  (∀ v, R (Ok v)) →
  (∀ e, exn_class e ≠ FileNotFoundError → R (Raise e)) →
  obeys (inv f0 h0 out0) R (py_get obj key dflt).
Proof.
  intros Hok Herr. unfold py_get.
  destruct obj; try (apply obeys_fault; by apply Herr).
  destruct (hash_key key); [by apply obeys_ret|].
  apply obeys_fault. by apply Herr.
Qed.

Lemma update_items_fault d items d' e :
  update_items d items = (d', Some e) → exn_class e ≠ FileNotFoundError.
Proof.
  revert d. induction items as [|item items IH]; intros d; simpl; [done|].
  destruct (py_iter item) as [[|k [|v [|]]]|]; try by intros [= <- <-].
  destruct (hash_key k); [apply IH|by intros [= <- <-]].
Qed.

Lemma obeys_py_update (R : outcome unit → Prop) peer arg :
  length h0 ≤ peer →
  R (Ok tt) →
  (∀ e, exn_class e ≠ FileNotFoundError → R (Raise e)) →
  obeys (inv f0 h0 out0) R (py_update peer arg).
Proof.
  intros Hpeer Hok Herr st (Hf & Hh & Ho).
  unfold py_update, bind, deref, assign, fault, raise, ret.
  assert (∀ v, inv f0 h0 out0 (set_heap (fun h => <[peer := v]> h) st)) as Hset.
  { intros v. split_and!; simpl; [done| |done]. by apply prefix_insert_ge. }
  destruct (default VNone (heap st !! peer)) as [| | | | |d];
    try (split; [done|]; by apply Herr).
  assert (∀ items, inv f0 h0 out0 (store_items peer d items st).2
                   ∧ R (store_items peer d items st).1) as Hitems.
  { intros items. unfold store_items, bind, assign, ret, raise.
    destruct (update_items d items) as [d' [e|]] eqn:Eu; simpl.
    - split; [by apply Hset|]. apply Herr. by eapply update_items_fault.
    - split; [by apply Hset|done]. }
  destruct arg as [| | |s|l|o]; simpl;
    try (split; [done|]; by apply Herr);
    try (split; [by apply Hset|done]); apply Hitems.
Qed.

Lemma obeys_load_yaml p :
  obeys (inv f0 h0 out0)
    (fun r => (∀ a, r = Ok a → length h0 ≤ a ∧ is_Some (read_record f0 p))
              ∧ ∀ e, r = Raise e → exn_class e = FileNotFoundError →
                     absent f0 p = true)
    (load_yaml p).
Proof.
  intros st (Hf & Hh & Ho).
  destruct (load_yaml p st) as [[r|e] st1] eqn:Hload; simpl.
  - apply load_yaml_fresh in Hload as [-> (v & Hrec & ->)]. split.
    + split_and!; simpl; [done| |done]. by apply prefix_app_r.
    + split; [|done]. intros a [= <-]. split; [by apply prefix_length|].
      rewrite <- Hf. by eexists.
  - pose proof (load_yaml_raises _ _ _ _ Hload) as ->. split; [done|].
    split; [done|]. intros e' [= <-] Hc. rewrite <- Hf.
    by eapply load_yaml_not_found.
Qed.

Lemma obeys_load_global_config m :
  obeys (inv f0 h0 out0)
    (fun r => (∀ a, r = Ok a → is_Some (read_record f0 (global_path m)))
              ∧ ∀ e, r = Raise e → exn_class e = FileNotFoundError →
                     absent f0 (global_path m) = true)
    (load_global_config m).
Proof.
  intros st HI. rewrite load_global_config_run.
  pose proof HI as (Hf & Hh & Ho).
  destruct (os_refuses Stat (global_path m)) as [r|] eqn:Hs; simpl.
  { split; [done|]. split; [done|]. intros e [= <-] Hc. by apply refused_class in Hc. }
  destruct (entry (fs st) (global_path m)) as [x|] eqn:Hx; simpl.
  - destruct (obeys_load_yaml (global_path m) st HI) as [HI' [Hok Hr]].
    split; [done|]. split; [|done]. intros a Ha. by destruct (Hok a Ha).
  - split; [done|]. split; [done|]. intros e _ _. apply absent_spec.
    by rewrite <- Hf.
Qed.

(** One turn of the peer loop reads files and touches only the object it
    created; it never lets a missing file escape. *)
Lemma obeys_resolve_peer m nc acc peer_name :
  obeys (inv f0 h0 out0) no_fnf (resolve_peer m nc acc peer_name).
Proof.
  unfold resolve_peer.
  apply (obeys_try_except _ any).
  - eapply obeys_bind; [apply obeys_load_yaml|side|]. intros peer [Hfresh _].
    eapply obeys_bind; [apply obeys_deref|side|]. intros node ?.
    eapply obeys_bind; [apply (obeys_py_get any); side|side|]. intros all_overrides _.
    eapply obeys_bind; [apply (obeys_py_get any); side|side|]. intros overrides _.
    eapply obeys_bind;
      [apply (obeys_py_update any); [by destruct (Hfresh peer eq_refl)|side..]|side|].
    intros _ _.
    eapply obeys_bind; [apply obeys_deref|side|]. intros fields _.
    eapply obeys_bind; [apply (obeys_py_get any); side|side|]. intros enabled _.
    destruct (truthy enabled); by apply (obeys_ret _ any).
  - by intros a _ e.
  - intros e _ He e' [= <-]. unfold is_class in He. by apply bool_decide_eq_false in He.
  - intros e _ _.
    eapply obeys_bind; [by apply (obeys_print (R:=fun r => r = Ok tt))|side|].
    intros _ _. apply obeys_ret. side.
Qed.

Lemma obeys_resolve_peers m nc names : ∀ acc,
  obeys (inv f0 h0 out0) no_fnf (resolve_peers m nc acc names).
Proof.
  induction names as [|name names IH]; intros acc; simpl.
  - by apply obeys_ret.
  - eapply obeys_bind; [apply obeys_resolve_peer|by intros e He|]. intros acc' _. apply IH.
Qed.

Lemma obeys_now_isoformat : obeys (inv f0 h0 out0) succeeds now_isoformat.
Proof. intros st HI. split; [done|]. by eexists. Qed.

(** [build_context] reads files, leaves the objects it did not create
    alone, and raises [FileNotFoundError] only for an absent global
    document or, once the global document is loaded, an absent node
    document. *)
Lemma obeys_build_context m node_name :
  obeys (inv f0 h0 out0)
    (fun r => ∀ e, r = Raise e → exn_class e = FileNotFoundError →
              absent f0 (global_path m) = true
              ∨ (is_Some (read_record f0 (global_path m))
                 ∧ absent f0 (node_path m node_name) = true))
    (build_context m node_name).
Proof.
  unfold build_context.
  eapply obeys_bind; [apply obeys_load_global_config| |].
  { intros e [_ He] e' [= <-] Hc. left. by eapply He. }
  intros global_config [Hg _]. specialize (Hg _ eq_refl).
  eapply obeys_bind; [apply obeys_load_yaml| |].
  { intros e [_ He] e' [= <-] Hc. right. split; [done|]. by eapply He. }
  intros node_config _.
  eapply obeys_bind; [apply obeys_deref|side|]. intros node ?.
  eapply (obeys_bind _ no_fnf).
  { apply obeys_py_get; [done|]. by intros e He e' [= <-]. }
  { intros e He e' [= <-] Hc. by destruct (He e). }
  intros peer_names _.
  eapply (obeys_bind _ no_fnf).
  { destruct (py_iter peer_names); [apply obeys_resolve_peers|].
    apply obeys_fault. by intros e [= <-]. }
  { intros e He e' [= <-] Hc. by destruct (He e). }
  intros peers _.
  eapply obeys_bind; [apply obeys_now_isoformat|side|]. intros generated_at ?.
  by apply obeys_ret.
Qed.

End frames.


Section rendering.
Context `{Env}.

Lemma obeys_read_file f0 h0 out0 p :
  obeys (inv f0 h0 out0) any (read_file p).
Proof.
  intros st HI. rewrite read_file_run.
  destruct (os_refuses OpenRead p); [done|].
  by destruct (entry (fs st) p) as [[]|].
Qed.

Lemma obeys_get_template f0 h0 out0 m name :
  obeys (inv f0 h0 out0) any (get_template m name).
Proof.
  intros st HI. unfold get_template, bind at 1, get_state.
  destruct (entry (fs st) (templates_dir m ++ [name])) as [[]|]; try done.
  by apply obeys_read_file.
Qed.

(** Rendering reads files: it writes none and changes no object that
    existed before. *)
Lemma obeys_render_config f0 h0 out0 m node_name :
  obeys (inv f0 h0 out0) any (render_config m node_name).
Proof.
  unfold render_config.
  eapply obeys_bind; [apply obeys_build_context|side|]. intros context ?.
  eapply obeys_bind; [apply obeys_get_template|side|]. intros template ?.
  eapply obeys_bind; [by apply (obeys_get_state _ any)|side|]. intros st ?.
  destruct (jinja_render _ _); [by apply obeys_ret|by apply obeys_raise].
Qed.






(** ** The loop of [generate_all] *)







End rendering.

Lemma inv_start st : inv (fs st) (heap st) (stdout st) st.
Proof. unfold inv. split_and!; reflexivity. Qed.

(** * The claims *)

Section claims.
Context `{Env}.

Lemma objects_lookup h refs vs :
  Forall2 (fun r v => h !! r = Some v) refs vs → objects h refs = vs.
Proof.
  induction 1 as [|r v refs vs Hr _ IH]; [done|].
  unfold objects in *. rewrite fmap_cons, Hr. simpl. by f_equal.
Qed.





(** On documents of the expected shape [build_context] succeeds; it
    leaves the file system alone, warns about the missing peers and
    resolves the surviving ones, in the order of the node's list. *)
Lemma build_context_resolves m node_name st g N P om :
  read_record (fs st) (global_path m) = Some g →
  read_record (fs st) (node_path m node_name) = Some (VDict N) →
  spec_peer_list N = Some P →
  spec_override_map N = Some om →
  Forall (fun p => peer_conforms (fs st) m om p = true) P →
  ∃ ctx st',
    build_context m node_name st = (Ok ctx, st')
    ∧ fs st' = fs st
    ∧ stdout st' = stdout st ++ (peer_warning <$> missing_peers (fs st) m P)
    ∧ heap st' !! ctx_global ctx = Some g
    ∧ heap st' !! ctx_node ctx = Some (VDict N)
    ∧ objects (heap st') (ctx_peers ctx) =
        VDict <$> (spec_resolved (fs st) m om <$> surviving_peers (fs st) m om P).
Proof.
  intros Hg Hn HP Hom Hall.
  destruct (build_context_run m node_name st g N P om Hg Hn HP Hom Hall)
    as (refs & hnew & Hrun & Hobj).
  eexists _, _. split; [exact Hrun|]. simpl. split_and!; try done.
  - by apply list_lookup_middle.
  - rewrite (cons_middle g), app_assoc.
    apply list_lookup_middle. rewrite length_app. simpl. lia.
  - by apply objects_lookup.
Qed.






(** C4.  The ResolvedPeer is the shallow merge of the override over the
    peer record: looking a key up in it gives the override's value when the
    override has the key, and the base's otherwise (so keys of the base
    pass through and keys of the override are added).  Merging the same
    override again changes nothing, the empty override gives the base
    itself, and one turn of the loop of [build_context] stores exactly this
    merge in the object it has loaded; resolving the same peer again gives
    an object with the same fields. *)
Theorem override_is_shallow_merge (B V : dict) :
  dict_wf V →
  (∀ h, dict_get h (dict_update B V) =
        match dict_get h V with
        | Some v => Some v
        | None => dict_get h B
        end)
  ∧ dict_update (dict_update B V) V = dict_update B V
  ∧ dict_update B [] = B
  ∧ (∀ m nc acc p st N om,
       heap st !! nc = Some (VDict N) →
       spec_override_map N = Some om →
       spec_peer_record (fs st) m p = Some B →
       spec_override om p = Some V →
       ∃ acc1 st1 acc2 st2,
         resolve_peer m nc acc (VStr p) st = (Ok acc1, st1)
         ∧ heap st1 !! length (heap st) = Some (VDict (dict_update B V))
         ∧ resolve_peer m nc acc1 (VStr p) st1 = (Ok acc2, st2)
         ∧ heap st2 !! length (heap st1) = Some (VDict (dict_update B V))
         ∧ heap st2 !! length (heap st) = Some (VDict (dict_update B V))).
Proof.
  intros [Hnd _]. split_and!.
  - intros h. by apply dict_get_update.
  - by apply dict_update_idempotent.
  - done.
  - intros m nc acc p st N om Hnc Hom HB HV.
    eexists _, _, _, _. split; [by eapply resolve_peer_present|].
    simpl. split; [apply lookup_snoc|].
    split.
    { eapply resolve_peer_present; [|done..]. simpl. by apply lookup_app_l_Some. }
    simpl. split; [apply lookup_snoc|].
    apply lookup_app_l_Some, lookup_snoc.
Qed.


(** C6.  [build_context] never changes a stored record: whatever it
    returns, the file system is as it was, every object that existed
    before the call is unchanged, a later [load_peer] gives what it would
    have given before, and so it is after another node's resolution. *)
Theorem build_context_keeps_stored_records m node_name st :
  let st' := (build_context m node_name st).2 in
  fs st' = fs st
  ∧ heap st `prefix_of` heap st'
  ∧ (∀ peer_name,
       loaded (load_peer m peer_name st') = loaded (load_peer m peer_name st))
  ∧ (∀ other peer_name,
       let st'' := (build_context m other st').2 in
       fs st'' = fs st
       ∧ heap st `prefix_of` heap st''
       ∧ loaded (load_peer m peer_name st'') = loaded (load_peer m peer_name st)).
Proof.
  intros st'.
  assert (∀ s1 s2 peer_name, fs s2 = fs s1 →
    loaded (load_peer m peer_name s2) = loaded (load_peer m peer_name s1)) as Hload.
  { intros s1 s2 peer_name Hfs. unfold loaded, load_peer.
    rewrite !load_yaml_run, Hfs.
    destruct (os_refuses Stat (peer_path m peer_name)); [done|].
    destruct (entry (fs s1) (peer_path m peer_name)) as [x|]; [|done].
    destruct (os_refuses OpenRead (peer_path m peer_name)); [done|].
    destruct x as [|text]; [done|].
    destruct (yaml_safe_load text); [done|]. simpl. by rewrite !lookup_snoc. }
  destruct (obeys_build_context (fs st) (heap st) (stdout st) m node_name st)
    as [(Hfs & Hheap & Hout) _]; [apply inv_start|].
  fold st' in Hfs, Hheap, Hout.
  split_and!; try done.
  - intros peer_name. by apply Hload.
  - intros other peer_name st''.
    destruct (obeys_build_context (fs st) (heap st) (stdout st) m other st')
      as [(Hfs' & Hheap' & _) _]; [unfold inv; by split_and!|].
    fold st'' in Hfs', Hheap'. split_and!; try done. by apply Hload.
Qed.

(** C8.  What a load does with an absent and with an empty document.  A
    document that the file system reports absent makes every load (of any
    document, and of the global, a node and a peer record in particular)
    fail with [FileNotFoundError] and leaves the state as it was.  When
    the operating system refuses to examine the path, the load fails with
    the error of that refusal, which is no [FileNotFoundError].  A
    document that exists, can be read and is empty (the parser finds no
    value in it) loads as a new, empty record and does not fail. *)
Theorem load_absent_fails_empty_loads m (node_name : string) (peer_name : value) (p : path) st :
  ((absent (fs st) p = true →
      ∃ msg, load_yaml p st = (Raise (Exn FileNotFoundError msg), st))
   ∧ (absent (fs st) (global_path m) = true →
      ∃ msg, load_global_config m st = (Raise (Exn FileNotFoundError msg), st))
   ∧ (absent (fs st) (node_path m node_name) = true →
      ∃ msg, load_node m node_name st = (Raise (Exn FileNotFoundError msg), st))
   ∧ (absent (fs st) (peer_path m peer_name) = true →
      ∃ msg, load_peer m peer_name st = (Raise (Exn FileNotFoundError msg), st)))
  ∧ (∀ q r, os_refuses Stat q = Some r →
      load_yaml q st = (Raise (refused q r), st)
      ∧ exn_class (refused q r) ≠ FileNotFoundError
      ∧ (q = global_path m → load_global_config m st = (Raise (refused q r), st))
      ∧ (q = node_path m node_name → load_node m node_name st = (Raise (refused q r), st))
      ∧ (q = peer_path m peer_name → load_peer m peer_name st = (Raise (refused q r), st)))
  ∧ (∀ text, yaml_safe_load text = Parsed VNone →
      let empty := (Ok (length (heap st)), set_heap (fun h => h ++ [VDict []]) st) in
      (readable p = true → entry (fs st) p = Some (File text) → load_yaml p st = empty)
      ∧ (readable (global_path m) = true → fs st !! global_path m = Some (File text) →
         load_global_config m st = empty)
      ∧ (readable (node_path m node_name) = true →
         fs st !! node_path m node_name = Some (File text) →
         load_node m node_name st = empty)
      ∧ (readable (peer_path m peer_name) = true →
         fs st !! peer_path m peer_name = Some (File text) →
         load_peer m peer_name st = empty)).
Proof.
  split_and!.
  - intros Hp. eexists. by apply load_yaml_absent.
  - intros [Hs Hp]%absent_spec. eexists. by rewrite load_global_config_run, Hs, Hp.
  - intros Hp. eexists. by apply load_yaml_absent.
  - intros Hp. eexists. by apply load_yaml_absent.
  - intros q r Hq.
    assert (load_yaml q st = (Raise (refused q r), st)) as Hload
      by (by rewrite load_yaml_run, Hq).
    split_and!; [done|apply refused_class|..].
    + intros ->. by rewrite load_global_config_run, Hq.
    + by intros ->.
    + by intros ->.
  - intros text Hparse empty.
    assert (∀ q, readable q = true → entry (fs st) q = Some (File text) →
              load_yaml q st = empty) as Hload.
    { intros q Hq He. apply load_yaml_record. unfold read_record.
      by rewrite Hq, He, Hparse. }
    split_and!.
    + apply Hload.
    + intros Hr Hg. apply load_global_config_record. unfold read_record.
      by rewrite Hr, global_path_entry, Hg, Hparse.
    + intros Hr Hn. apply Hload; [done|]. by rewrite node_path_entry.
    + intros Hr Hp. apply Hload; [done|]. by rewrite peer_path_entry.
Qed.



End claims.

(** ** Dry run *)

Section dry_run.
Context `{Env}.

Lemma obeys_path_exists f0 h0 out0 p :
  obeys (inv f0 h0 out0) any (path_exists p).
Proof. intros st HI. rewrite path_exists_run. by destruct (os_refuses Stat p). Qed.

Lemma obeys_require_dirs f0 h0 out0 ds :
  obeys (inv f0 h0 out0) any (require_dirs ds).
Proof.
  induction ds as [|d ds IH]; intros st HI; simpl; [done|].
  unfold bind. rewrite path_exists_run.
  destruct (os_refuses Stat d); [done|].
  destruct (bool_decide _); [by apply IH|done].
Qed.

Lemma obeys_init f0 h0 out0 base :
  obeys (inv f0 h0 out0) any (__init__ base).
Proof.
  unfold __init__, _validate_directories.
  eapply obeys_bind; [apply obeys_require_dirs|side|]. intros ? ?.
  by apply obeys_ret.
Qed.

Lemma obeys_generate_unwritten f0 h0 out0 m node_name :
  obeys (inv f0 h0 out0) any (generate m node_name None).
Proof.
  unfold generate.
  eapply obeys_bind; [apply obeys_render_config|side|]. intros config ?.
  eapply (obeys_bind _ any); [by apply obeys_ret|side|]. intros ? ?.
  by apply obeys_ret.
Qed.

(** The dry run of a single node writes no file: [main] hands no output
    path to [generate]. *)
Lemma dry_run_of_one_node_keeps_files args st :
  arg_list args = false →
  arg_all args = false →
  arg_dry_run args = true →
  arg_validate args = false →
  fs (main args st).2 = fs st.
Proof.
  intros Hlist Hall Hdry Hval.
  assert (obeys (inv (fs st) (heap st) (stdout st)) any (main args)) as Hmain.
  { unfold main. rewrite Hlist, Hall, Hdry, Hval. simpl.
    apply (obeys_try_except _ any); [|side|side|].
    - eapply obeys_bind; [apply obeys_init|side|]. intros manager ?.
      destruct (nonempty (arg_node args)) as [node|].
      + assert (match arg_output args with Some _ => None | None => None end
                = (None : option path)) as -> by (by destruct (arg_output args)).
        eapply obeys_bind; [apply obeys_generate_unwritten|side|]. intros config ?.
        eapply (obeys_bind _ any); [by apply (obeys_print _ _ _ (R:=any))|side|]. intros ? ?.
        eapply (obeys_bind _ any); [by apply obeys_ret|side|]. intros ? ?.
        by apply obeys_ret.
      + eapply (obeys_bind _ any); [by apply (obeys_print _ _ _ (R:=any))|side|]. intros ? ?.
        by apply obeys_ret.
    - intros e _ _.
      eapply (obeys_bind _ any); [by apply (obeys_print _ _ _ (R:=any))|side|]. intros ? ?.
      by apply obeys_ret. }
  by destruct (Hmain st) as [(Hfs & _) _]; [apply inv_start|].
Qed.

End dry_run.

(** * The deployment of [Demo], run *)

Section demo.
#[local] Existing Instance Demo.env.
Import Demo.

(** C1.  The dry run of all nodes writes files: [main] hands no
    directory to [generate_all], which then falls back to the manager's own
    output directory and writes each configuration there.  On the
    deployment, [--all --dry-run] ends with exit status 0, prints the
    configurations, and has created [output/edge1/bird.conf], which did
    not exist before. *)
Theorem dry_run_of_all_nodes_writes_files :
  let r := main dry_run_all start in
  r.1 = Ok 0%Z
  ∧ fs start !! ["opt"; "peering"; "output"; "edge1"; "bird.conf"] = None
  ∧ fs r.2 !! ["opt"; "peering"; "output"; "edge1"; "bird.conf"]
      = Some (File "router id 10.0.0.1;")
  ∧ "router id 10.0.0.1;" ∈ stdout r.2
  ∧ fs r.2 ≠ fs start.
Proof.
  intros r.
  assert (fs r.2 !! ["opt"; "peering"; "output"; "edge1"; "bird.conf"]
          = Some (File "router id 10.0.0.1;")) as Hnew by (vm_compute; reflexivity).
  assert (fs start !! ["opt"; "peering"; "output"; "edge1"; "bird.conf"] = None) as Hold
    by (vm_compute; reflexivity).
  split; [vm_compute; reflexivity|].
  split; [exact Hold|].
  split; [exact Hnew|].
  split.
  - apply list_elem_of_In. vm_compute. tauto.
  - intros Heq. rewrite Heq, Hold in Hnew. discriminate Hnew.
Qed.

(** C7.  The temporary file is not removed on every path.  The file is
    created and written before the [try] whose [finally] removes it, so
    when the write fails the exception leaves [validate_config] and the
    file stays: on the deployment, where a text outside ASCII cannot be
    written, validating such a text raises the error of the write and
    leaves the (empty) temporary file, which was not there before.  Once
    the text is written the file is removed, here after the checker has
    rejected the text. *)
Theorem validate_config_leaves_the_file_of_a_failed_write :
  let temp_path := ["/"; "tmp"; "tmpq3x7.conf"] in
  let r := validate_config accented start in
  mkstemp (fs start) = Ok temp_path
  ∧ fs start !! temp_path = None
  ∧ r.1 = Raise (Exn UnicodeEncodeError "'ascii' codec can't encode character")
  ∧ fs r.2 !! temp_path = Some (File "")
  ∧ (validate_config "bad" start).1 = Ok false
  ∧ fs (validate_config "bad" start).2 !! temp_path = None.
Proof.
  intros temp_path r.
  split_and!; vm_compute; reflexivity.
Qed.

(** The scenario of §8 of the specification, as instances of the
    theorems. *)

Lemma edge1_global_record :
  read_record (fs start) (global_path manager) = Some (VDict [(VStr "asn", VInt 65000)]).
Proof. vm_compute. reflexivity. Defined.

Lemma edge1_node_record :
  read_record (fs start) (node_path manager "edge1") = Some (VDict edge1_fields).
Proof. vm_compute. reflexivity. Defined.


Lemma edge1_peers_conform :
  Forall (fun p => peer_conforms (fs start) manager edge1_overrides p = true)
    ["p1"; "p2"; "ghost"].
Proof. repeat (constructor; [vm_compute; reflexivity|]). constructor. Defined.




Lemma demo_override_wf : dict_wf [(VStr "enabled", VBool false)].
Proof.
  split.
  - apply NoDup_singleton.
  - repeat constructor. by eexists.
Defined.

Lemma override_merge_witness :
  dict_get (HStr "enabled") (dict_update p2_fields [(VStr "enabled", VBool false)])
    = Some (VBool false)
  ∧ dict_get (HStr "address") (dict_update p2_fields [(VStr "enabled", VBool false)])
    = Some (VStr "10.0.0.2").
Proof.
  destruct (override_is_shallow_merge p2_fields [(VStr "enabled", VBool false)]
              demo_override_wf) as (Hget & _).
  split; rewrite Hget; reflexivity.
Defined.


(** C8, refuted as the specification states it.  No document lies at
    the path of the peer [long_name], and yet the load does not fail with
    [FileNotFoundError]: the name is too long for a file name, and the
    operating system's error leaves the load. *)
Lemma load_absent_counterexample :
  ¬ is_Some (fs start !! peer_path manager (VStr long_name))
  ∧ (load_peer manager (VStr long_name) start).1 = Raise (Exn OSError "os fault")
  ∧ exn_class (Exn OSError "os fault") ≠ FileNotFoundError.
Proof.
  split_and!.
  - assert (fs start !! peer_path manager (VStr long_name) = None) as ->
      by (vm_compute; reflexivity).
    by intros [? ?].
  - vm_compute. reflexivity.
  - intros Hc. discriminate Hc.
Qed.

Lemma load_absent_or_empty_witness :
  (∃ msg, load_peer manager (VStr "ghost") start
          = (Raise (Exn FileNotFoundError msg), start))
  ∧ load_node manager "edge2" start
    = (Ok 0, set_heap (fun h => h ++ [VDict []]) start).
Proof.
  destruct (load_absent_fails_empty_loads manager "edge2" (VStr "ghost")
              (node_path manager "edge2") start) as ((_ & _ & _ & Hpeer) & _ & Hempty).
  split.
  - apply Hpeer. vm_compute. reflexivity.
  - destruct (Hempty "" eq_refl) as (_ & _ & Hnode & _).
    apply Hnode; vm_compute; reflexivity.
Defined.



End demo.

(** * Further properties of the generator *)

(** ** The template filters *)

Section filters.
Context `{Env}.

(** X1.  The filter [as_list] always gives a list, which a template can
    iterate; it passes a list through unchanged, wraps anything else into
    a list of one element, and applying it twice is the same as applying
    it once. *)
Theorem as_list_normalizes v :
  (∃ items, as_list v = VList items ∧ py_iter (as_list v) = Some items)
  ∧ as_list (as_list v) = as_list v
  ∧ (∀ l, as_list (VList l) = VList l)
  ∧ ((∀ l, v ≠ VList l) → as_list v = VList [v]).
Proof.
  split_and!.
  - destruct v; simpl; by eexists.
  - by destruct v.
  - done.
  - intros Hv. destruct v; try done. by destruct (Hv l).
Qed.

End filters.

(** ** Strings and directory listings *)








Section listing.
Context `{Env}.


End listing.

(** ** The manager and the command line *)

Section startup.
Context `{Env}.

Lemma require_dirs_present ds st :
  Forall (fun d => path_exists d st = (Ok true, st)) ds →
  require_dirs ds st = (Ok tt, st).
Proof.
  induction 1 as [|d ds Hd _ IH]; simpl; [done|].
  unfold bind. by rewrite Hd.
Qed.

Lemma require_dirs_missing pre d post st :
  Forall (fun d => path_exists d st = (Ok true, st)) pre →
  (path_exists d st = (Ok false, st) →
   require_dirs (pre ++ d :: post) st =
     (Raise (Exn FileNotFoundError ("Required directory not found: " +:+ path_str d)), st))
  ∧ (∀ e, path_exists d st = (Raise e, st) →
       require_dirs (pre ++ d :: post) st = (Raise e, st)).
Proof.
  intros Hpre. induction Hpre as [|d' pre Hd' _ IH]; simpl.
  - split; [intros Hd|intros e Hd]; unfold bind; by rewrite Hd.
  - destruct IH as [IH1 IH2].
    split; [intros Hd|intros e Hd]; unfold bind; rewrite Hd'; [by apply IH1|by apply IH2].
Qed.

(** X3.  The manager is created exactly when the templates directory,
    the data directory and its [peers] and [nodes] directories exist (the
    output directory is not required).  [__init__] asks for them in this
    order and stops at the first one that is not there, with
    [FileNotFoundError] naming it, or that the operating system refuses
    to examine, with the error of that refusal.  Either way it changes
    nothing.  The base directory is a path that goes straight down. *)
Theorem init_requires_the_four_directories base st :
  let b := default script_dir base in
  let m := Manager b (b ++ ["templates"]) (b ++ ["data"]) (b ++ ["output"]) in
  straight b = true →
  required_dirs m = [b ++ ["templates"]; b ++ ["data"];
                     (b ++ ["data"]) ++ ["peers"]; (b ++ ["data"]) ++ ["nodes"]]
  ∧ (Forall (fun d => path_exists d st = (Ok true, st)) (required_dirs m) →
     __init__ base st = (Ok m, st))
  ∧ (∀ pre d post,
       required_dirs m = pre ++ d :: post →
       Forall (fun d => path_exists d st = (Ok true, st)) pre →
       (path_exists d st = (Ok false, st) →
        __init__ base st =
          (Raise (Exn FileNotFoundError
                    ("Required directory not found: " +:+ path_str d)), st))
       ∧ (∀ e, path_exists d st = (Raise e, st) → __init__ base st = (Raise e, st))).
Proof.
  intros b m _. split; [done|]. split.
  - intros Hall. unfold __init__, _validate_directories, bind. fold b. fold m.
    by rewrite require_dirs_present.
  - intros pre d post Hsplit Hpre.
    destruct (require_dirs_missing pre d post st Hpre) as [Hmiss Hrefused].
    split; [intros Hd|intros e Hd];
      unfold __init__, _validate_directories, bind; fold b; fold m; rewrite Hsplit.
    + by rewrite Hmiss.
    + by rewrite (Hrefused e Hd).
Qed.



End startup.

(** ** What generation does to the file system *)

Lemma dirs_added_refl f : dirs_added f f.
Proof. intros q. by left. Qed.

Lemma dirs_added_trans f1 f2 f3 : dirs_added f1 f2 → dirs_added f2 f3 → dirs_added f1 f3.
Proof.
  intros H12 H23 q. destruct (H12 q) as [E12|[E1 E2]], (H23 q) as [E23|[E2' E3]].
  - left. congruence.
  - right. split; congruence.
  - right. split; congruence.
  - congruence.
Qed.

Lemma dirs_added_insert f d : f !! d = None → dirs_added f (<[d := Dir]> f).
Proof.
  intros Hd q. destruct (decide (d = q)) as [<-|Hne].
  - right. by rewrite lookup_insert_eq.
  - left. by rewrite lookup_insert_ne.
Qed.

Lemma dirs_added_keeps f f' q x : dirs_added f f' → f !! q = Some x → f' !! q = Some x.
Proof. intros Hd Hq. destruct (Hd q) as [E|[E _]]; congruence. Qed.

Lemma entry_dirs_added f f' q x : dirs_added f f' → entry f q = Some x → entry f' q = Some x.
Proof.
  unfold entry. intros Hd. destruct (forallb is_anchor q); [done|].
  by apply dirs_added_keeps.
Qed.

Lemma dirs_added_beside_weaken p f f' : dirs_added f f' → dirs_added_beside p f f'.
Proof. intros Hd q _. apply Hd. Qed.

Lemma dirs_added_beside_trans p f1 f2 f3 :
  dirs_added_beside p f1 f2 → dirs_added_beside p f2 f3 → dirs_added_beside p f1 f3.
Proof.
  intros H12 H23 q Hq.
  destruct (H12 q Hq) as [E12|[E1 E2]], (H23 q Hq) as [E23|[E2' E3]].
  - left. congruence.
  - right. split; congruence.
  - right. split; congruence.
  - congruence.
Qed.

Lemma dirs_added_beside_insert p f x : dirs_added_beside p f (<[p := x]> f).
Proof. intros q Hq. left. by rewrite lookup_insert_ne. Qed.

Lemma entry_none_lookup (f : gmap path file) p : entry f p = None → f !! p = None.
Proof. unfold entry. by destruct (forallb is_anchor p). Qed.

Lemma removelast_take (p : path) : removelast p = take (length p - 1) p.
Proof.
  induction p as [|x [|y p] IH]; [done..|].
  simpl in *. rewrite IH. do 2 f_equal. lia.
Qed.

Section files.
Context `{Env}.

Lemma mkdir_from_cons made c todo st :
  mkdir_from made (c :: todo) st =
    match entry (fs st) (made ++ [c]) with
    | Some Dir => mkdir_from (made ++ [c]) todo st
    | Some (File _) =>
        let k := match todo with [] => FileExistsError | _ => NotADirectoryError end in
        (Raise (Exn k (os_fault k ((made ++ [c]) ++ todo))), st)
    | None =>
        match os_refuses Mkdir (made ++ [c]) with
        | Some r => (Raise (refused (made ++ [c]) r), st)
        | None =>
            mkdir_from (made ++ [c]) todo (set_fs (fun f => <[made ++ [c] := Dir]> f) st)
        end
    end.
Proof.
  simpl. unfold bind at 1, get_state.
  destruct (entry (fs st) (made ++ [c])) as [[|text]|]; [done..|].
  unfold bind, os_permits. by destruct (os_refuses Mkdir (made ++ [c])).
Qed.

(** [mkdir] creates directories and nothing else, prints nothing and
    touches no object. *)
Lemma mkdir_from_effect todo : ∀ made st,
  dirs_added (fs st) (fs (mkdir_from made todo st).2)
  ∧ heap (mkdir_from made todo st).2 = heap st
  ∧ stdout (mkdir_from made todo st).2 = stdout st.
Proof.
  induction todo as [|c todo IH]; intros made st.
  - split; [apply dirs_added_refl|done].
  - rewrite mkdir_from_cons.
    destruct (entry (fs st) (made ++ [c])) as [[|text]|] eqn:Hd.
    + apply IH.
    + split; [apply dirs_added_refl|done].
    + destruct (os_refuses Mkdir (made ++ [c])).
      { split; [apply dirs_added_refl|done]. }
      destruct (IH (made ++ [c]) (set_fs (fun f => <[made ++ [c] := Dir]> f) st))
        as (Hfs & Hheap & Hout).
      split; [|done]. eapply dirs_added_trans; [|exact Hfs].
      apply dirs_added_insert. by apply entry_none_lookup.
Qed.

(** After a successful [mkdir] the directory and everything above it are
    directories. *)
Lemma mkdir_from_made todo : ∀ made st,
  (mkdir_from made todo st).1 = Ok tt →
  ∀ k, 0 < k ≤ length todo →
    entry (fs (mkdir_from made todo st).2) (made ++ take k todo) = Some Dir.
Proof.
  induction todo as [|c todo IH]; intros made st Hok k Hk; [simpl in Hk; lia|].
  rewrite mkdir_from_cons in Hok |- *.
  assert (∀ st1, entry (fs st1) (made ++ [c]) = Some Dir →
    (mkdir_from (made ++ [c]) todo st1).1 = Ok tt →
    entry (fs (mkdir_from (made ++ [c]) todo st1).2) (made ++ take k (c :: todo))
      = Some Dir) as Hstep.
  { intros st1 Hd Hok1. destruct k as [|k]; [lia|]. simpl.
    destruct k as [|k].
    - rewrite take_0. eapply entry_dirs_added; [apply mkdir_from_effect|done].
    - assert (made ++ c :: take (S k) todo = (made ++ [c]) ++ take (S k) todo) as ->
        by by rewrite <- app_assoc.
      apply IH; [done|]. simpl in Hk. lia. }
  destruct (entry (fs st) (made ++ [c])) as [[|text]|] eqn:Hd.
  - by apply Hstep.
  - done.
  - destruct (os_refuses Mkdir (made ++ [c])); [done|].
    apply Hstep; [|done]. simpl. unfold entry.
    destruct (forallb is_anchor (made ++ [c])); [done|]. apply lookup_insert_eq.
Qed.

(** A write puts the whole text in the file, or fails: before the file
    is opened, and then nothing has changed, or after, and then the file
    holds what has reached it. *)
Lemma write_file_effect p text st :
  match write_file p text st with
  | (Ok _, st') => st' = set_fs (fun f => <[p := File text]> f) st
  | (Raise _, st') =>
      st' = st ∨ ∃ part, st' = set_fs (fun f => <[p := File part]> f) st
  end.
Proof.
  unfold write_file, check_parent, bind, get_state, os_permits, ret, raise.
  destruct (entry (fs st) (parent p)) as [[]|]; simpl; try by left.
  destruct (os_refuses OpenWrite p); [by left|].
  destruct (entry (fs st) p) as [[]|]; try (by left);
    destruct (write_fault p text) as [[e part]|]; try done; right; by eexists.
Qed.

Lemma generate_unfold m node_name out st :
  generate m node_name out st =
    match render_config m node_name st with
    | (Raise e, st1) => (Raise e, st1)
    | (Ok config, st1) =>
        match out with
        | None => (Ok config, st1)
        | Some p =>
            match mkdir_parents (parent p) st1 with
            | (Raise e, st2) => (Raise e, st2)
            | (Ok _, st2) =>
                match write_file p config st2 with
                | (Raise e, st3) => (Raise e, st3)
                | (Ok _, st3) =>
                    (Ok config,
                     set_stdout (fun o => o ++ ["Generated: " +:+ path_str p]) st3)
                end
            end
        end
    end.
Proof.
  unfold generate, bind at 1.
  destruct (render_config m node_name st) as [[config|e] st1]; [|done].
  destruct out as [p|]; [|done].
  unfold bind at 1, bind at 1.
  destruct (mkdir_parents (parent p) st1) as [[[]|e] st2]; [|done].
  unfold bind at 1.
  destruct (write_file p config st2) as [[[]|e] st3]; done.
Qed.

Lemma render_config_keeps_files m node_name st :
  fs (render_config m node_name st).2 = fs st.
Proof.
  by destruct (obeys_render_config (fs st) (heap st) (stdout st) m node_name st)
    as [(Hfs & _) _]; [apply inv_start|].
Qed.


(** The effect of [generate] on the file system, case by case. *)
Lemma generate_effect m node_name out st :
  match generate m node_name out st, out with
  | (Ok config, st'), Some p =>
      (∃ st1, render_config m node_name st = (Ok config, st1))
      ∧ fs st' !! p = Some (File config)
      ∧ dirs_added_beside p (fs st) (fs st')
      ∧ (∀ k, 0 < k < length p → entry (fs st') (take k p) = Some Dir)
      ∧ last (stdout st') = Some ("Generated: " +:+ path_str p)
  | (Ok config, st'), None =>
      render_config m node_name st = (Ok config, st') ∧ fs st' = fs st
  | (Raise e, st'), Some p => failed_write p (fs st) (fs st')
  | (Raise e, st'), None => fs st' = fs st
  end.
Proof.
  rewrite generate_unfold.
  pose proof (render_config_keeps_files m node_name st) as Hrender.
  destruct (render_config m node_name st) as [[config|e] st1]; simpl in Hrender.
  2: { destruct out; rewrite Hrender; [|done]. left. apply dirs_added_refl. }
  destruct out as [p|]; [|done].
  destruct (mkdir_from_effect (parent p) [] st1) as (Hdirs & _ & _).
  pose proof (mkdir_from_made (parent p) [] st1) as Hmade.
  fold (mkdir_parents (parent p)) in Hdirs, Hmade.
  rewrite Hrender in Hdirs.
  destruct (mkdir_parents (parent p) st1) as [[[]|e] st2]; simpl in Hdirs, Hmade;
    [|by left].
  pose proof (write_file_effect p config st2) as Hwrite.
  destruct (write_file p config st2) as [[[]|e] st3].
  - subst st3. simpl. split_and!.
    + by eexists.
    + apply lookup_insert_eq.
    + eapply dirs_added_beside_trans;
        [by apply dirs_added_beside_weaken|apply dirs_added_beside_insert].
    + intros k Hk.
      destruct p as [|c [|c' p']]; [simpl in Hk; lia|simpl in Hk; lia|].
      assert (take k (c :: c' :: p') = take k (parent (c :: c' :: p'))) as Htake.
      { unfold parent. rewrite removelast_take, take_take. f_equal. simpl in *. lia. }
      rewrite entry_insert_ne.
      * rewrite Htake. apply (Hmade eq_refl).
        unfold parent. rewrite removelast_take, length_take. simpl in *. lia.
      * intros Heq. apply (f_equal length) in Heq. rewrite length_take in Heq.
        simpl in *. lia.
    + by rewrite last_snoc.
  - destruct Hwrite as [->|[part ->]]; [by left|].
    right. by exists (fs st2), part.
Qed.

(** X5.  [generate] writes its output and nothing else.  With an
    output path, a run that returns has put the rendered text there,
    has made the directories above it, has printed the line that names
    the file, and has otherwise left every file as it was; without one it
    leaves the file system alone.  A run that fails has at most made
    directories and, when the failure came after the output file was
    opened, left in it the part of the text that had been written.  The
    output path is one that goes straight down. *)
Theorem generate_writes_only_its_output m node_name out st :
  (∀ p, out = Some p → straight p = true) →
  match generate m node_name out st, out with
  | (Ok config, st'), Some p =>
      (∃ st1, render_config m node_name st = (Ok config, st1))
      ∧ fs st' !! p = Some (File config)
      ∧ dirs_added_beside p (fs st) (fs st')
      ∧ (∀ k, 0 < k < length p → entry (fs st') (take k p) = Some Dir)
      ∧ last (stdout st') = Some ("Generated: " +:+ path_str p)
  | (Ok config, st'), None =>
      render_config m node_name st = (Ok config, st') ∧ fs st' = fs st
  | (Raise e, st'), Some p => failed_write p (fs st) (fs st')
  | (Raise e, st'), None => fs st' = fs st
  end.
Proof. intros _. apply generate_effect. Qed.






(** The temporary file of [validate_config], once it is written: the
    checker runs, and the file is removed. *)
Lemma validate_config_written config st temp :
  mkstemp (fs st) = Ok temp →
  write_fault temp config = None →
  os_refuses Unlink temp = None →
  entry (fs st) temp = None →
  let removed := fs st in
  let ends r lines := (r, State removed (heap st) (stdout st ++ lines) (ticks st)) in
  validate_config config st =
    match run_bird temp config with
    | Ok result =>
        if (returncode result =? 0)%Z
        then ends (Ok true) ["Configuration is valid"]
        else ends (Ok false) ["Configuration validation failed:" +:+ nl +:+ stderr result]
    | Raise e =>
        if is_class FileNotFoundError e
        then ends (Ok true)
               ["Warning: BIRD not installed, skipping validation";
                "Install BIRD to enable config validation: apt install bird2"]
        else if is_class TimeoutExpired e
        then ends (Ok false) ["Warning: BIRD validation timed out"]
        else ends (Raise e) []
    end.
Proof.
  intros Htemp Hwrite Hperm Hnew removed ends.
  assert (forallb is_anchor temp = false ∧ fs st !! temp = None) as [Hanchor Hnone].
  { unfold entry in Hnew. by destruct (forallb is_anchor temp). }
  assert (∀ st0 : state,
    fs st0 = <[temp := File config]> (fs st) →
    unlink temp st0 =
      (Ok tt, State removed (heap st0) (stdout st0) (ticks st0))) as Hunlink.
  { intros st0 Hfs. unfold unlink, bind, os_permits, get_state. rewrite Hperm. simpl.
    unfold entry. rewrite Hanchor, Hfs, lookup_insert_eq. unfold set_fs. simpl.
    rewrite Hfs. unfold removed. rewrite delete_insert_eq. by rewrite delete_id. }
  unfold validate_config, bind at 1, named_temporary_file.
  rewrite Htemp, Hwrite.
  unfold try_finally, try_except, bind at 1, subprocess_run_bird.
  destruct (run_bird temp config) as [result|e]; simpl.
  - destruct (returncode result =? 0)%Z; unfold bind, print, ret; simpl;
      rewrite Hunlink by done; done.
  - unfold raise. simpl. destruct (is_class FileNotFoundError e); simpl.
    + unfold bind, print, ret; simpl. rewrite Hunlink by done. simpl.
      unfold ends. by rewrite <- app_assoc.
    + destruct (is_class TimeoutExpired e); simpl.
      * unfold bind, print, ret; simpl. by rewrite Hunlink by done.
      * rewrite Hunlink by done. simpl. unfold ends. by rewrite app_nil_r.
Qed.

(** X7.  What [validate_config] leaves behind.  When the temporary
    file cannot be created, the error is raised and nothing has changed.
    When the file is created but the text cannot be written to it, the
    error of the write is raised and the file stays, with the part of the
    text that reached it.  When the file is written (and the system lets
    it be removed again), the file system ends exactly as it started,
    whatever the checker does, and no object has changed. *)
Theorem validate_config_restores_the_files config st :
  match mkstemp (fs st) with
  | Raise e => validate_config config st = (Raise e, st)
  | Ok temp =>
      match write_fault temp config with
      | Some (e, part) =>
          validate_config config st
            = (Raise e, set_fs (fun f => <[temp := File part]> f) st)
      | None =>
          entry (fs st) temp = None →
          os_refuses Unlink temp = None →
          fs (validate_config config st).2 = fs st
          ∧ heap (validate_config config st).2 = heap st
      end
  end.
Proof.
  destruct (mkstemp (fs st)) as [temp|e] eqn:Htemp.
  2: { unfold validate_config, bind, named_temporary_file. by rewrite Htemp. }
  destruct (write_fault temp config) as [[e part]|] eqn:Hwrite.
  { unfold validate_config, bind, named_temporary_file. by rewrite Htemp, Hwrite. }
  intros Hnew Hperm.
  rewrite (validate_config_written config st temp Htemp Hwrite Hperm Hnew).
  destruct (run_bird temp config) as [result|e].
  - by destruct (returncode result =? 0)%Z.
  - destruct (is_class FileNotFoundError e); [done|].
    by destruct (is_class TimeoutExpired e).
Qed.

(** X16.  [validate_config] classifies the run of the checker, once
    the temporary file is written: exit code 0 is valid ([True]); another
    exit code is invalid ([False]) and the captured diagnostics are
    printed; a checker that is not installed is reported as such and
    passes ([True]); a run that exceeds the timeout is reported and fails
    ([False]); any other error of the run propagates.  On each of these
    paths the temporary file is gone at the end, and nothing else in the
    file system has changed. *)
Theorem validate_config_classifies config st temp :
  mkstemp (fs st) = Ok temp →
  write_fault temp config = None →
  os_refuses Unlink temp = None →
  entry (fs st) temp = None →
  let ends r lines := (r, State (fs st) (heap st) (stdout st ++ lines) (ticks st)) in
  validate_config config st =
    match run_bird temp config with
    | Ok result =>
        if (returncode result =? 0)%Z
        then ends (Ok true) ["Configuration is valid"]
        else ends (Ok false) ["Configuration validation failed:" +:+ nl +:+ stderr result]
    | Raise e =>
        if is_class FileNotFoundError e
        then ends (Ok true)
               ["Warning: BIRD not installed, skipping validation";
                "Install BIRD to enable config validation: apt install bird2"]
        else if is_class TimeoutExpired e
        then ends (Ok false) ["Warning: BIRD validation timed out"]
        else ends (Raise e) []
    end
  ∧ fs (validate_config config st).2 !! temp = None.
Proof.
  intros Htemp Hwrite Hperm Hnew ends.
  pose proof (validate_config_written config st temp Htemp Hwrite Hperm Hnew) as Hrun.
  split; [exact Hrun|]. rewrite Hrun.
  assert (fs st !! temp = None) as Hnone by by apply entry_none_lookup.
  destruct (run_bird temp config) as [result|e].
  - by destruct (returncode result =? 0)%Z.
  - destruct (is_class FileNotFoundError e); [done|].
    by destruct (is_class TimeoutExpired e).
Qed.

End files.


(** ** Documents of another shape *)

Section shapes.
Context `{Env}.




(** X9.  The shape of the node document matters.  A node document that
    holds something other than a mapping (a list, a text, a number) makes
    [build_context] fail with [AttributeError]; a [peers] key whose value
    cannot be iterated (null, a number, a boolean) makes it fail with
    [TypeError].  In both cases the two records were loaded and nothing
    else has happened. *)
Theorem ill_shaped_node_is_fatal m node_name st g v :
  read_record (fs st) (global_path m) = Some g →
  read_record (fs st) (node_path m node_name) = Some v →
  let loaded_both := State (fs st) (heap st ++ [g; v]) (stdout st) (ticks st) in
  ((∀ d, v ≠ VDict d) →
     build_context m node_name st =
       (Raise (Exn AttributeError (py_fault AttributeError v)), loaded_both))
  ∧ (∀ N w,
       v = VDict N →
       dict_get (HStr "peers") N = Some w →
       py_iter w = None →
       build_context m node_name st =
         (Raise (Exn TypeError (py_fault TypeError w)), loaded_both)).
Proof.
  intros Hg Hn loaded_both. split.
  - intros Hv. rewrite (build_context_loaded m node_name st g v Hg Hn).
    unfold bind at 1. destruct v; try done. by destruct (Hv d).
  - intros N w -> Hw Hiter. rewrite (build_context_loaded m node_name st g _ Hg Hn).
    unfold bind at 1. simpl. rewrite Hw. simpl. unfold bind at 1. by rewrite Hiter.
Qed.



End shapes.


(** ** The objects of a context *)

Section objects.
Context `{Env}.

Lemma heap_bind {A B} (c : M A) (k : A → M B) :
  (∀ st, length (heap st) ≤ length (heap (c st).2)) →
  (∀ a st, length (heap st) ≤ length (heap (k a st).2)) →
  ∀ st, length (heap st) ≤ length (heap (bind c k st).2).
Proof.
  intros Hc Hk st. unfold bind. specialize (Hc st).
  destruct (c st) as [[a|e] st1]; simpl in *; [|done].
  specialize (Hk a st1). lia.
Qed.

Lemma heap_py_get obj key dflt st :
  length (heap st) ≤ length (heap (py_get obj key dflt st).2).
Proof. unfold py_get. destruct obj; try done. by destruct (hash_key key). Qed.

Lemma heap_py_update peer arg st :
  length (heap st) ≤ length (heap (py_update peer arg st).2).
Proof.
  unfold py_update, bind, deref.
  destruct (default VNone (heap st !! peer)) as [| | | | |d]; try done.
  assert (∀ items, length (heap st) ≤ length (heap (store_items peer d items st).2)) as Hitems.
  { intros items. unfold store_items, bind, assign.
    destruct (update_items d items) as [d' [e|]]; simpl; by rewrite length_insert. }
  destruct arg as [| | |s|l|o]; simpl; try done; try apply Hitems.
  by rewrite length_insert.
Qed.

(** A turn of the peer loop appends at most the object it has just
    created, the next one of the heap. *)
Lemma resolve_peer_fresh m nc acc name st r st' :
  resolve_peer m nc acc name st = (r, st') →
  length (heap st) ≤ length (heap st')
  ∧ ∀ acc', r = Ok acc' →
      acc' = acc
      ∨ (acc' = acc ++ [length (heap st)] ∧ length (heap st) < length (heap st')).
Proof.
  unfold resolve_peer, try_except, bind at 1, load_peer.
  destruct (load_yaml (peer_path m name) st) as [[peer|e] st1] eqn:Hload.
  - apply load_yaml_fresh in Hload as [-> (v & _ & ->)].
    set (st1 := set_heap _ st).
    set (rest := bind (deref nc) _).
    assert (obeys (inv (fs st1) (heap st) (stdout st1))
              (fun r => ∀ a, r = Ok a → a = acc ∨ a = acc ++ [length (heap st)]) rest)
      as Hrest.
    { unfold rest.
      eapply obeys_bind; [apply obeys_deref|side|]. intros node ?.
      eapply obeys_bind; [apply (obeys_py_get _ _ _ any); side|side|]. intros all_overrides _.
      eapply obeys_bind; [apply (obeys_py_get _ _ _ any); side|side|]. intros overrides _.
      eapply obeys_bind; [apply (obeys_py_update _ _ _ any); side|side|].
      intros _ _.
      eapply obeys_bind; [apply obeys_deref|side|]. intros fields _.
      eapply obeys_bind; [apply (obeys_py_get _ _ _ any); side|side|]. intros enabled _.
      destruct (truthy enabled); apply obeys_ret; intros a [= <-]; [by right|by left]. }
    assert (length (heap st1) ≤ length (heap (rest st1).2)) as Hh.
    { unfold rest.
      apply heap_bind; [done|]. intros node.
      apply heap_bind; [apply heap_py_get|]. intros all_overrides.
      apply heap_bind; [apply heap_py_get|]. intros overrides.
      apply heap_bind; [apply heap_py_update|]. intros _.
      apply heap_bind; [done|]. intros fields.
      apply heap_bind; [apply heap_py_get|]. intros enabled.
      by destruct (truthy enabled). }
    destruct (Hrest st1) as [_ Hr].
    { unfold inv, st1. simpl. split_and!; [done| |done]. by apply prefix_app_r. }
    unfold st1 at 1 in Hh. simpl in Hh.
    rewrite length_app in Hh. simpl in Hh.
    destruct (rest st1) as [[a|e] st2]; simpl in *.
    + intros [= <- <-]. split; [lia|]. intros acc' [= <-].
      destruct (Hr a eq_refl) as [->| ->]; [by left|right]. split; [done|lia].
    + destruct (is_class FileNotFoundError e); intros [= <- <-]; simpl;
        (split; [lia|]); [|done].
      intros acc' [= <-]. by left.
  - apply load_yaml_raises in Hload as ->.
    destruct (is_class FileNotFoundError e); intros [= <- <-]; simpl;
      (split; [lia|]); [|done].
    intros acc' [= <-]. by left.
Qed.

Lemma resolve_peers_fresh m nc names : ∀ acc st acc' st',
  resolve_peers m nc acc names st = (Ok acc', st') →
  length (heap st) ≤ length (heap st')
  ∧ ∃ new, acc' = acc ++ new
           ∧ NoDup new
           ∧ Forall (fun r => length (heap st) ≤ r < length (heap st')) new.
Proof.
  induction names as [|name names IH]; intros acc st acc' st'; simpl.
  - intros [= <- <-]. split; [done|]. exists []. rewrite app_nil_r.
    split_and!; [done|constructor|constructor].
  - unfold bind.
    destruct (resolve_peer m nc acc name st) as [[acc1|e] st1] eqn:Hturn; [|done].
    apply resolve_peer_fresh in Hturn as [Hlen Hacc]. intros Hrun.
    apply IH in Hrun as (Hlen' & new & -> & Hnd & Hall). split; [lia|].
    destruct (Hacc acc1 eq_refl) as [->|[-> Hlt]].
    + exists new. split_and!; [done..|].
      eapply Forall_impl; [exact Hall|]. simpl. lia.
    + exists (length (heap st) :: new). split_and!.
      * by rewrite <- app_assoc.
      * constructor; [|done]. intros Hin.
        rewrite Forall_forall in Hall. apply Hall in Hin. lia.
      * constructor; [lia|]. eapply Forall_impl; [exact Hall|]. simpl. lia.
Qed.

(** X11.  A context that [build_context] returns is made of objects of
    its own: the global record, the node record and every resolved peer
    are objects created during this call (none existed before it), and no
    two of them are the same object, also when the node names a peer
    twice. *)
Theorem build_context_objects_are_fresh_and_distinct m node_name st ctx st' :
  build_context m node_name st = (Ok ctx, st') →
  let held := ctx_global ctx :: ctx_node ctx :: ctx_peers ctx in
  NoDup held
  ∧ Forall (fun r => length (heap st) ≤ r < length (heap st')) held
  ∧ ctx_global ctx = length (heap st)
  ∧ ctx_node ctx = S (length (heap st)).
Proof.
  unfold build_context, bind at 1. rewrite load_global_config_run.
  destruct (os_refuses Stat (global_path m)); [done|].
  destruct (entry (fs st) (global_path m)); [|done].
  destruct (load_yaml (global_path m) st) as [[g|e] st1] eqn:Hg; [|done].
  apply load_yaml_fresh in Hg as [-> (vg & _ & ->)].
  unfold bind at 1, load_node.
  destruct (load_yaml _ _) as [[n|e] st2] eqn:Hn; [|done].
  apply load_yaml_fresh in Hn as [-> (vn & _ & ->)]. simpl.
  rewrite length_app. simpl.
  replace (length (heap st) + 1) with (S (length (heap st))) by lia.
  unfold bind at 1, deref. simpl.
  unfold bind at 1.
  destruct (py_get _ _ _ _) as [[peer_names|e] st3] eqn:Hget; [|done].
  assert (st3 = set_heap (fun h => h ++ [vn]) (set_heap (fun h => h ++ [vg]) st)) as ->.
  { unfold py_get in Hget. destruct (default VNone _); try done.
    destruct (hash_key _); [|done]. by injection Hget as _ <-. }
  unfold bind at 1.
  destruct (py_iter peer_names) as [names|]; [|done].
  destruct (resolve_peers _ _ _ _ _) as [[peers|e] st4] eqn:Hrun; [|done].
  apply resolve_peers_fresh in Hrun as (Hlen & new & -> & Hnd & Hall).
  simpl in Hlen, Hall. rewrite !length_app in Hlen, Hall. simpl in Hlen, Hall.
  unfold bind, now_isoformat, ret. intros [= <- <-]. simpl.
  rewrite Forall_forall in Hall.
  split_and!; [| |done..].
  - constructor.
    { intros Hin. apply elem_of_cons in Hin as [?|Hin]; [lia|].
      apply Hall in Hin. lia. }
    constructor; [|done]. intros Hin. apply Hall in Hin. lia.
  - constructor; [lia|]. constructor; [lia|].
    apply Forall_forall. intros r Hr. apply Hall in Hr. lia.
Qed.

End objects.

(** ** Runs of the command line *)

Section runs.
Context `{Env}.











End runs.

(** ** The further properties on the deployment of [Demo] *)

Section demo_runs.
#[local] Existing Instance Demo.env.
Import Demo.


Lemma as_list_witness : as_list (VStr "10.0.0.1") = VList [VStr "10.0.0.1"].
Proof.
  destruct (as_list_normalizes (VStr "10.0.0.1")) as (_ & _ & _ & Hwrap).
  apply Hwrap. intros l Heq. discriminate Heq.
Defined.


Lemma init_witness :
  __init__ None bare =
    (Raise (Exn FileNotFoundError "Required directory not found: opt/peering/templates"),
     bare).
Proof.
  assert (straight (default script_dir None) = true) as Hbase by reflexivity.
  destruct (init_requires_the_four_directories None bare Hbase) as (_ & _ & Hmissing).
  destruct (Hmissing [] ["opt"; "peering"; "templates"]
              [["opt"; "peering"; "data"]; ["opt"; "peering"; "data"; "peers"];
               ["opt"; "peering"; "data"; "nodes"]] eq_refl (Forall_nil_2 _))
    as [Hnone _].
  apply Hnone. apply path_exists_missing; reflexivity.
Defined.


Lemma generate_witness :
  ∃ st', generate manager "edge1" (Some ["out"; "edge1"; "bird.conf"]) start
         = (Ok "router id 10.0.0.1;", st')
         ∧ fs st' !! ["out"; "edge1"; "bird.conf"] = Some (File "router id 10.0.0.1;")
         ∧ fs st' !! ["out"; "edge1"] = Some Dir.
Proof.
  assert (∀ p, Some ["out"; "edge1"; "bird.conf"] = Some p → straight p = true)
    as Hstraight.
  { intros p [= <-]. reflexivity. }
  pose proof (generate_writes_only_its_output manager "edge1"
                (Some ["out"; "edge1"; "bird.conf"]) start Hstraight) as Hgen.
  match type of Hgen with
  | match ?g with _ => _ end =>
      assert (g.1 = Ok "router id 10.0.0.1;") as E by (vm_compute; reflexivity);
      destruct g as [o st']
  end.
  simpl in E. subst o. destruct Hgen as (_ & Hfile & _ & Hdirs & _).
  exists st'. split; [reflexivity|]. split; [exact Hfile|].
  apply (Hdirs 2). simpl. lia.
Defined.



Lemma validate_config_restores_witness :
  fs (validate_config "bad" start).2 = fs start
  ∧ heap (validate_config "bad" start).2 = heap start.
Proof.
  pose proof (validate_config_restores_the_files "bad" start) as Hrun.
  change (entry (fs start) ["/"; "tmp"; "tmpq3x7.conf"] = None →
          os_refuses Unlink ["/"; "tmp"; "tmpq3x7.conf"] = None →
          fs (validate_config "bad" start).2 = fs start
          ∧ heap (validate_config "bad" start).2 = heap start) in Hrun.
  apply Hrun; vm_compute; reflexivity.
Defined.

Lemma validate_config_classifies_witness :
  (validate_config "bad" start).1 = Ok false
  ∧ fs (validate_config "bad" start).2 !! ["/"; "tmp"; "tmpq3x7.conf"] = None.
Proof.
  destruct (validate_config_classifies "bad" start ["/"; "tmp"; "tmpq3x7.conf"])
    as [Hrun Hgone]; [vm_compute; reflexivity..|].
  split; [|exact Hgone]. rewrite Hrun. reflexivity.
Defined.


Lemma fresh_objects_witness :
  ∃ ctx st',
    build_context manager "edge1" start = (Ok ctx, st')
    ∧ NoDup (ctx_global ctx :: ctx_node ctx :: ctx_peers ctx)
    ∧ ctx_global ctx = 0
    ∧ ctx_node ctx = 1.
Proof.
  destruct (build_context_resolves manager "edge1" start
              _ edge1_fields ["p1"; "p2"; "ghost"] edge1_overrides
              edge1_global_record edge1_node_record eq_refl eq_refl edge1_peers_conform)
    as (ctx & st' & Hrun & _).
  exists ctx, st'. split; [exact Hrun|].
  destruct (build_context_objects_are_fresh_and_distinct manager "edge1" start ctx st' Hrun)
    as (Hnd & _ & Hglobal & Hnode).
  split; [exact Hnd|]. split; [exact Hglobal|exact Hnode].
Defined.




End demo_runs.

Section demo_plain.
#[local] Existing Instance Demo.env_plain.
Import Demo.





End demo_plain.

Section demo_shapes.
#[local] Existing Instance Demo.env_shapes.
Import Demo.

Lemma shapes_global_record :
  read_record (fs shapes) (global_path manager) = Some (VDict [(VStr "asn", VInt 65000)]).
Proof. vm_compute. reflexivity. Defined.

Lemma ill_shaped_node_witness :
  build_context manager "edge4" shapes =
    (Raise (Exn AttributeError "fault"),
     State (fs shapes)
       [VDict [(VStr "asn", VInt 65000)]; VList [VStr "edge4"]] [] 0)
  ∧ build_context manager "edge5" shapes =
    (Raise (Exn TypeError "fault"),
     State (fs shapes)
       [VDict [(VStr "asn", VInt 65000)]; VDict [(VStr "peers", VNone)]] [] 0).
Proof.
  assert (read_record (fs shapes) (node_path manager "edge4")
          = Some (VList [VStr "edge4"])) as Hlist by (vm_compute; reflexivity).
  assert (read_record (fs shapes) (node_path manager "edge5")
          = Some (VDict [(VStr "peers", VNone)])) as Hnull by (vm_compute; reflexivity).
  split.
  - destruct (ill_shaped_node_is_fatal manager "edge4" shapes _ _
                shapes_global_record Hlist) as [Hshape _].
    apply Hshape. intros d Heq. discriminate Heq.
  - destruct (ill_shaped_node_is_fatal manager "edge5" shapes _ _
                shapes_global_record Hnull) as [_ Hpeers].
    apply (Hpeers [(VStr "peers", VNone)] VNone); reflexivity.
Defined.


End demo_shapes.
